(** * Log aggregation engine: scan, filter, aggregate, merge, emit

    A shallow embedding of [python/myscript_optimized.py] (the parallel
    engine) and of the reader of [python/myscript.py] (the sequential
    script), with the properties of the engine proved over it.

    Conventions of the embedding.
    - Python integers are [Z]; list positions and counters that only grow
      from zero are [nat].
    - A file is the list of its lines, each without its terminator.  The
      csv reader groups the lines into records: a record is one line, or
      several when a line ends inside a quoted field, and is given as the
      text of its lines joined by newlines; a row is the list of fields of
      a record.
    - A [dict] is a [gmap]; two dicts are equal when they hold the same
      items, whatever the insertion order.
    - A raised exception is the [Raise] case of [res]; nothing of the state
      built so far survives it.
    - The six arguments every function of the engine passes along (window,
      granularity, dimensions, the two filters) are the record [query].
    - The order in which a thread pool completes its futures is a
      [scheduler]: any rearrangement of the submitted list.
    - Library calls ([datetime.strptime], [strftime], [int], the two
      halves of the csv reader) are the fields of the class [Runtime]; every
      theorem holds for all of them.  [fixed_runtime] is an instance used
      for the worked examples. *)

From Stdlib Require Import ZArith Lia Ascii.
From stdpp Require Import gmap strings list sorting lexico pretty.

Local Open Scope Z_scope.

(** ** Exceptions and results *)

Inductive exn : Type :=
  | ValueError_granularity   (* get_period_start: "Invalid granularity" *)
  | ValueError_int           (* int(row[i]) on a malformed literal *)
  | ValueError_max_workers   (* ThreadPoolExecutor(max_workers <= 0) *)
  | ZeroDivisionError        (* (line_count + n - 1) // 0 *)
  | FileNotFoundError.       (* open() of a missing path *)

Inductive res (A : Type) : Type :=
  | Ok (a : A)
  | Raise (e : exn).
Arguments Ok {A} a.
Arguments Raise {A} e.

#[global] Instance exn_eq_dec : EqDecision exn.
Proof. solve_decision. Defined.

#[global] Instance res_ret : MRet res := λ A a, Ok a.
#[global] Instance res_bind : MBind res := λ A B f m,
  match m with
  | Ok a => f a
  | Raise e => Raise e
  end.
#[global] Instance res_fmap : FMap res := λ A B f m,
  match m with
  | Ok a => Ok (f a)
  | Raise e => Raise e
  end.

Definition raises {A} (m : res A) : Prop := ∃ e, m = Raise e.

(** A [for] loop whose body may raise: the state is threaded through the
    items and the first exception ends the loop. *)
Fixpoint for_each {S X : Type} (body : S → X → res S) (s : S) (xs : list X) : res S :=
  match xs with
  | [] => Ok s
  | x :: xs' => s' ← body s x; for_each body s' xs'
  end.

(** ** Naive datetimes

    [dt_date] is the proleptic Gregorian ordinal of the calendar day
    ([date.toordinal()]); adding [timedelta(days=1)] is adding one, and the
    order of ordinals is the order of (year, month, day).  Python compares
    naive datetimes field by field, most significant first. *)

Record datetime : Type := mk_datetime {
  dt_date : Z;
  dt_hour : Z;
  dt_minute : Z;
  dt_second : Z;
  dt_microsecond : Z
}.

#[global] Instance datetime_eq_dec : EqDecision datetime.
Proof. solve_decision. Defined.

Definition dt_fields (t : datetime) : list Z :=
  [dt_date t; dt_hour t; dt_minute t; dt_second t; dt_microsecond t].

(** Comparison of two sequences, most significant element first; a proper
    prefix comes before its extensions. *)
Fixpoint list_cmp {A : Type} (cmp : A → A → comparison) (a b : list A) : comparison :=
  match a, b with
  | [], [] => Eq
  | [], _ :: _ => Lt
  | _ :: _, [] => Gt
  | x :: a', y :: b' =>
      match cmp x y with
      | Eq => list_cmp cmp a' b'
      | c => c
      end
  end.

Definition dt_cmp (a b : datetime) : comparison :=
  list_cmp Z.compare (dt_fields a) (dt_fields b).

(* a < b *)
Definition dt_ltb (a b : datetime) : bool :=
  match dt_cmp a b with Lt => true | _ => false end.
(* a >= b *)
Definition dt_geb (a b : datetime) : bool :=
  match dt_cmp a b with Lt => false | _ => true end.

(** The order the comparisons are specified against: lexicographic order of
    the field tuples. *)
Definition dt_lt (a b : datetime) : Prop := lexico (dt_fields a) (dt_fields b).
Definition dt_le (a b : datetime) : Prop := a = b ∨ dt_lt a b.

(** ** Library calls *)

Class Runtime : Type := {
  (* datetime.strptime(s, '%Y-%m-%d %H:%M:%S'); None is ValueError *)
  strptime : string → option datetime;
  (* dt.strftime('%Y-%m-%d %H:%M:%S') *)
  strftime : datetime → string;
  (* date.strftime('%Y-%m-%d'), the date given by its ordinal *)
  strftime_date : Z → string;
  (* int(s); None is ValueError *)
  int_of_str : string → option Z;
  (* the fields csv.reader yields for one record *)
  csv_fields : string → list string;
  (* csv.reader, having read this text from the start of a record, is
     inside a quoted field at the end of the line: the record goes on with
     the next line *)
  csv_unfinished : string → bool;
  (* directory of the per-day files *)
  LOGS_DIR : string
}.

(* the line terminator kept inside a quoted field that spans lines *)
Definition newline : string := String (Ascii.ascii_of_nat 10) "".

(** The file system as the scripts see it: path to lines. *)

Abbreviation filesystem := (gmap string (list string)).

(** key -> 9 metric sums; keys are (period_str, *dim_values). *)
Abbreviation table := (gmap (list string) (list Z)).

Record query : Type := mk_query {
  from_dt : datetime;
  to_dt : datetime;
  granularity : string;
  dimensions : list string;
  user_filter : option (list string);
  app_filter : option (list string)
}.

Section Engine.
Context {rt : Runtime}.

Definition parse_datetime (dt_str : string) : option datetime := strptime dt_str.

Definition get_period_start (timestamp : datetime) (granularity : string) : res datetime :=
  if String.eqb granularity "30m" then
    let minute := dt_minute timestamp `div` 30 * 30 in
    Ok (mk_datetime (dt_date timestamp) (dt_hour timestamp) minute 0 0)
  else if String.eqb granularity "1day" then
    Ok (mk_datetime (dt_date timestamp) 0 0 0 0)
  else Raise ValueError_granularity.

(** [get_date_range]: the loop [while current <= end] appends one string
    per day from [from_dt.date()] to [to_dt.date()], both included. *)
Definition get_date_range (from_dt to_dt : datetime) : list string :=
  strftime_date <$> seqZ (dt_date from_dt) (dt_date to_dt - dt_date from_dt + 1).

(** [set(user_filter) if user_filter else None]: [None] and the empty list
    are both falsy. *)
Definition filter_set (flt : option (list string)) : option (gset string) :=
  match flt with
  | Some (x :: l) => Some (list_to_set (x :: l))
  | Some [] => None
  | None => None
  end.

(** [user_set and user not in user_set]. *)
Definition filtered_out (s : option (gset string)) (x : string) : bool :=
  match s with
  | Some st => bool_decide (st ≠ ∅) && bool_decide (x ∉ st)
  | None => false
  end.

(** [row_dt < from_dt or row_dt >= to_dt] is the rejection test. *)
Definition outside_window (from_dt to_dt row_dt : datetime) : bool :=
  dt_ltb row_dt from_dt || dt_geb row_dt to_dt.

(** The tests of the loop body of [process_file_chunk] up to the window
    test, each failing one a [continue]: the result is the parsed
    timestamp of a row that passes them all. *)
Definition accept (q : query) (user_set app_set : option (gset string))
    (row : list string) : option datetime :=
  if bool_decide (length row < 12)%nat then None else
  let timestamp_str := row !!! 0%nat in
  let user := row !!! 1%nat in
  let app := row !!! 2%nat in
  if filtered_out user_set user then None else
  if filtered_out app_set app then None else
  match parse_datetime timestamp_str with
  | None => None
  | Some row_dt =>
      if outside_window (from_dt q) (to_dt q) row_dt then None else Some row_dt
  end.

(** [dim_values]: user before app, each only when selected. *)
Definition dim_values (dimensions : list string) (user app : string) : list string :=
  (if bool_decide ("user" ∈ dimensions) then [user] else []) ++
  (if bool_decide ("app" ∈ dimensions) then [app] else []).

(** [[int(row[i]) for i in range(3, 12)]]. *)
Definition parse_metrics (row : list string) : res (list Z) :=
  mapM (λ i, match int_of_str (row !!! i) with
             | Some z => Ok z
             | None => Raise ValueError_int
             end) (seq 3 9).

Definition zero_vector : list Z := replicate 9 0.

(** [for i in range(9): aggregated[key][i] += metrics[i]] on a
    [defaultdict(lambda: [0] * 9)]: the first subscript creates the zero
    vector of a key not seen before. *)
Definition add_metrics (aggregated : table) (key : list string) (metrics : list Z) : table :=
  foldl (λ (agg : table) (i : nat),
           let v := default zero_vector (agg !! key) in
           <[key := <[i := (v !!! i) + (metrics !!! i)]> v]> agg)
        aggregated (seq 0 9).

(** [csv.reader(f)] as an iterator of records.  The reader takes lines
    from the file until it is no longer inside a quoted field; at the end
    of the file a record still open is yielded as it stands.  [pending] is
    the text of the record being read, if one is open. *)
Fixpoint csv_group (pending : option string) (lines : list string) : list string :=
  match lines with
  | [] =>
      match pending with
      | Some record => [record]
      | None => []
      end
  | line :: lines' =>
      let record :=
        match pending with
        | Some text => text +:+ newline +:+ line
        | None => line
        end in
      if csv_unfinished record then csv_group (Some record) lines'
      else record :: csv_group None lines'
  end.

Definition csv_records (lines : list string) : list string := csv_group None lines.

(** One iteration of the row loop, after the [chunk_size] test; [line] is
    the text of the record. *)
Definition process_row (q : query) (user_set app_set : option (gset string))
    (st : table * nat) (line : string) : res (table * nat) :=
  let '(local_aggregated, rows_processed) := st in
  let row := csv_fields line in
  match accept q user_set app_set row with
  | None => Ok st
  | Some row_dt =>
      let rows_processed := S rows_processed in
      period_start ← get_period_start row_dt (granularity q);
      let period_str := strftime period_start in
      let key := period_str :: dim_values (dimensions q) (row !!! 1%nat) (row !!! 2%nat) in
      metrics ← parse_metrics row;
      Ok (add_metrics local_aggregated key metrics, rows_processed)
  end.

(** The range of lines a chunk names: [chunk_start] lines are skipped,
    then [chunk_size] lines are taken; a falsy [chunk_size] ([None] or 0)
    goes to the end of the file. *)
Definition chunk_lines {A} (lines : list A) (chunk_start : Z) (chunk_size : option Z) : list A :=
  let rest := drop (Z.to_nat chunk_start) lines in
  match chunk_size with
  | None => rest
  | Some c => if bool_decide (c = 0) then rest else take (Z.to_nat c) rest
  end.

(** The records a call reads: [chunk_start] lines of the file are skipped
    with [next(f, None)], the csv reader is started on what follows, and its
    rows are read until [rows_read >= chunk_size]; a falsy [chunk_size]
    ([None] or 0) reads to the end of the file. *)
Definition chunk_records (lines : list string) (chunk_start : Z) (chunk_size : option Z)
    : list string :=
  let rows := csv_records (drop (Z.to_nat chunk_start) lines) in
  match chunk_size with
  | None => rows
  | Some c => if bool_decide (c = 0) then rows else take (Z.to_nat c) rows
  end.

Definition process_lines (q : query) (lines : list string) : res (table * nat) :=
  for_each (process_row q (filter_set (user_filter q)) (filter_set (app_filter q)))
           (∅, 0%nat) lines.

Definition process_file_chunk (fs : filesystem) (filepath : string) (q : query)
    (chunk_start : Z) (chunk_size : option Z) : res (table * nat) :=
  match fs !! filepath with
  | None => Ok (∅, 0%nat)
  | Some lines => process_lines q (chunk_records lines chunk_start chunk_size)
  end.

(** *** Merging partial tables

    [for key, metrics in partial.items(): for i in range(9):
    combined[key][i] += metrics[i]].  The items are visited in the order
    [map_to_list] lists them; [merge_items_order] shows the order is
    immaterial. *)
Definition merge_items (combined : table) (items : list (list string * list Z)) : table :=
  foldl (λ (acc : table) '(key, metrics), add_metrics acc key metrics) combined items.

Definition merge_partial (combined partial : table) : table :=
  merge_items combined (map_to_list partial).

(** *** The chunk planner of [process_file_parallel] *)

Definition PARALLEL_THRESHOLD : Z := 100000.

(* (line_count + num_threads - 1) // num_threads *)
Definition plan_chunk_size (line_count num_threads : Z) : Z :=
  (line_count + num_threads - 1) `div` num_threads.

(** The (chunk_start, chunk_size) pairs submitted, in submission order. *)
Definition chunk_plan (line_count num_threads : Z) : list (Z * Z) :=
  let chunk_size := plan_chunk_size line_count num_threads in
  (λ i, (i * chunk_size, chunk_size)) <$> seqZ 0 num_threads.

(** The loop over [as_completed(futures)] of [process_file_parallel];
    [future.result()] re-raises what the worker raised. *)
Definition merge_future (st : table * nat) (future : res (table * nat)) : res (table * nat) :=
  let '(combined, total_rows) := st in
  '(partial, rows) ← future;
  Ok (merge_partial combined partial, (total_rows + rows)%nat).

Definition merge_completed (completed : list (res (table * nat))) : res (table * nat) :=
  for_each merge_future (∅, 0%nat) completed.

(** The order in which the executor completes the submitted work is not
    fixed by the program: a scheduler is any rearrangement of the futures. *)
Record scheduler : Type := mk_scheduler {
  as_completed : ∀ A : Type, list A → list A;
  as_completed_perm : ∀ (A : Type) (futures : list A), as_completed A futures ≡ₚ futures
}.

Definition process_file_parallel (sched : scheduler) (fs : filesystem) (filepath : string)
    (q : query) (num_threads : Z) : res (table * nat) :=
  match fs !! filepath with
  | None => Raise FileNotFoundError
  | Some lines =>
      let line_count := Z.of_nat (length lines) in
      if bool_decide (line_count = 0) then Ok (∅, 0%nat)
      else if bool_decide (line_count < PARALLEL_THRESHOLD) || bool_decide (num_threads = 1)
      then process_file_chunk fs filepath q 0 None
      else if bool_decide (num_threads = 0) then Raise ZeroDivisionError
      else if bool_decide (num_threads < 0) then Raise ValueError_max_workers
      else
        let futures :=
          (λ '(chunk_start, chunk_size),
             process_file_chunk fs filepath q chunk_start (Some chunk_size))
            <$> chunk_plan line_count num_threads in
        merge_completed (as_completed sched _ futures)
  end.

(** *** The engine entry point *)

(* os.path.join(LOGS_DIR, f'{date_str}.log.csv') *)
Definition log_path (date_str : string) : string :=
  LOGS_DIR +:+ "/" +:+ date_str +:+ ".log.csv".

(** The loop over [as_completed(futures)] of [aggregate_data_parallel]. *)
Definition collect_future (st : table * nat * nat) (future : res (table * nat))
    : res (table * nat * nat) :=
  let '(combined, total_rows, files_processed) := st in
  '(partial, rows) ← future;
  Ok (merge_partial combined partial, (total_rows + rows)%nat, S files_processed).

Definition collect_files (completed : list (res (table * nat))) : res (table * nat * nat) :=
  for_each collect_future (∅, 0%nat, 0%nat) completed.

(** The days of the range whose file exists: the ones submitted. *)
Definition existing_files (fs : filesystem) (date_files : list string) : list string :=
  filter (λ date_str, is_Some (fs !! log_path date_str)) date_files.

Definition aggregate_data_parallel (sched : scheduler) (fs : filesystem) (q : query)
    (num_threads : Z) : res (table * nat * nat) :=
  let date_files := get_date_range (from_dt q) (to_dt q) in
  if bool_decide (num_threads `min` Z.of_nat (length date_files) ≤ 0)
  then Raise ValueError_max_workers
  else
    let futures :=
      (λ date_str, process_file_chunk fs (log_path date_str) q 0 None)
        <$> existing_files fs date_files in
    collect_files (as_completed sched _ futures).

End Engine.

(** ** Ordering of keys

    Python orders [str] by code point and tuples lexicographically, a
    proper prefix before its extensions.  Strings here are byte strings
    (UTF-8), whose byte order is the code point order. *)

Definition code_points (s : string) : list nat :=
  Ascii.nat_of_ascii <$> String.list_ascii_of_string s.

#[global] Instance string_lexico : Lexico string := λ s t,
  lexico (code_points s) (code_points t).

(* s < t, s == t or s > t on [str] *)
Definition str_cmp (s t : string) : comparison :=
  list_cmp Nat.compare (code_points s) (code_points t).

(* the same on tuples of [str] *)
Definition key_cmp (k1 k2 : list string) : comparison := list_cmp str_cmp k1 k2.

(** [k1 <= k2] on keys. *)
Definition key_le (k1 k2 : list string) : Prop := key_cmp k1 k2 ≠ Gt.

#[global] Instance comparison_eq_dec : EqDecision comparison.
Proof. solve_decision. Defined.

#[global] Instance key_le_dec : RelDecision key_le.
Proof. intros k1 k2. unfold key_le. apply _. Defined.

(** ** The result emitter ([write_results], less the file it writes) *)

(** A csv cell: a key field or a metric sum. *)
Inductive cell : Type :=
  | Str (s : string)
  | Int (z : Z).

#[global] Instance cell_eq_dec : EqDecision cell.
Proof. solve_decision. Defined.

(* [f'metric_{i}' for i in range(1, 10)] *)
Definition METRIC_COLUMNS : list string :=
  (λ i : nat, "metric_" +:+ pretty i) <$> seq 1 9.

Definition header (dimensions : list string) : list string :=
  ["timestamp"] ++
  (if bool_decide ("user" ∈ dimensions) then ["user"] else []) ++
  (if bool_decide ("app" ∈ dimensions) then ["app"] else []) ++
  METRIC_COLUMNS.

(** [sorted(keys)]: the ascending arrangement of the keys. *)
Definition sorted (keys : list (list string)) : list (list string) :=
  merge_sort key_le keys.

(* row = list(key) + aggregated[key] *)
Definition output_row (aggregated : table) (key : list string) : list cell :=
  (Str <$> key) ++ (Int <$> aggregated !!! key).

(** The data rows written for the keys as [aggregated.keys()] lists them. *)
Definition rows_of_keys (aggregated : table) (keys : list (list string)) : list (list cell) :=
  output_row aggregated <$> sorted keys.

Definition table_keys (aggregated : table) : list (list string) :=
  (map_to_list aggregated).*1.

(** The rows handed to the csv writer: the header, then the data rows. *)
Definition write_results (aggregated : table) (dimensions : list string) : list (list cell) :=
  (Str <$> header dimensions) :: rows_of_keys aggregated (table_keys aggregated).

(** ** The reader of the sequential script ([myscript.py]) *)

Record parsed_row : Type := mk_parsed {
  p_timestamp : string;
  p_user : string;
  p_app : string;
  p_metrics : list Z
}.

Section Sequential.
Context {rt : Runtime}.

Definition parse_row (row : list string) : res parsed_row :=
  metrics ← parse_metrics row;
  Ok (mk_parsed (row !!! 0%nat) (row !!! 1%nat) (row !!! 2%nat) metrics).

(** One iteration of the loop of [read_log_file] ([line] is the text of
    the record); the state is the list of pairs yielded so far. *)
Definition read_row (from_dt to_dt : datetime) (user_set app_set : option (gset string))
    (yielded : list (parsed_row * datetime)) (line : string)
    : res (list (parsed_row * datetime)) :=
  let row := csv_fields line in
  if bool_decide (length row < 12)%nat then Ok yielded else
  parsed ← parse_row row;
  if filtered_out user_set (p_user parsed) then Ok yielded else
  if filtered_out app_set (p_app parsed) then Ok yielded else
  match parse_datetime (p_timestamp parsed) with
  | None => Ok yielded
  | Some row_dt =>
      if dt_ltb row_dt from_dt || dt_geb row_dt to_dt then Ok yielded
      else Ok (yielded ++ [(parsed, row_dt)])
  end.

Definition read_log_file (fs : filesystem) (filepath : string) (from_dt to_dt : datetime)
    (user_filter app_filter : option (list string)) : res (list (parsed_row * datetime)) :=
  match fs !! filepath with
  | None => Ok []
  | Some lines =>
      for_each (read_row from_dt to_dt (filter_set user_filter) (filter_set app_filter))
               [] (csv_records lines)
  end.

End Sequential.

(** ** A runtime for the worked examples

    Fixed-width instances of the library calls: timestamps are exactly
    [YYYY-MM-DD HH:MM:SS] with every field in range, integers are an
    optional sign and decimal digits, csv records are read by the state
    machine of the default dialect.  The calendar is the proleptic Gregorian one, counted
    from ordinal 1 = 0001-01-01 as [date.toordinal] does. *)

Module FixedRuntime.

Definition digit (a : Ascii.ascii) : option Z :=
  let n := Z.of_nat (Ascii.nat_of_ascii a) in
  if bool_decide (48 ≤ n ≤ 57) then Some (n - 48) else None.

Fixpoint number_acc (acc : Z) (l : list Ascii.ascii) : option Z :=
  match l with
  | [] => Some acc
  | a :: l' => d ← digit a; number_acc (10 * acc + d) l'
  end.

Definition number (l : list Ascii.ascii) : option Z :=
  match l with
  | [] => None
  | _ => number_acc 0 l
  end.

Definition parse_int (s : string) : option Z :=
  match String.list_ascii_of_string s with
  | "-"%char :: l => Z.opp <$> number l
  | "+"%char :: l => number l
  | l => number l
  end.

Fixpoint split_commas (cur : string) (l : list Ascii.ascii) : list string :=
  match l with
  | [] => [String.rev cur]
  | a :: l' =>
      if Ascii.eqb a ","%char then String.rev cur :: split_commas "" l'
      else split_commas (String a cur) l'
  end.

Definition split_line (line : string) : list string :=
  split_commas "" (String.list_ascii_of_string line).

(** The state machine of [csv.reader] in its default dialect: fields are
    separated by commas; a field that starts with a double quote runs to
    the closing one, commas and newlines included, and a doubled quote in it
    stands for one quote; a quote inside an unquoted field is an ordinary
    character. *)
Definition quotechar : Ascii.ascii := Ascii.ascii_of_nat 34.

Inductive csv_state : Type :=
  | START_RECORD
  | START_FIELD
  | IN_FIELD
  | IN_QUOTED_FIELD
  | QUOTE_IN_QUOTED_FIELD.

(* the state, the field being read (reversed), the fields read (last first) *)
Definition csv_char (st : csv_state * string * list string) (c : Ascii.ascii)
    : csv_state * string * list string :=
  let '(state, field, fields) := st in
  match state with
  | START_RECORD | START_FIELD =>
      if Ascii.eqb c quotechar then (IN_QUOTED_FIELD, field, fields)
      else if Ascii.eqb c ","%char then (START_FIELD, ""%string, String.rev field :: fields)
      else (IN_FIELD, String c field, fields)
  | IN_FIELD =>
      if Ascii.eqb c ","%char then (START_FIELD, ""%string, String.rev field :: fields)
      else (IN_FIELD, String c field, fields)
  | IN_QUOTED_FIELD =>
      if Ascii.eqb c quotechar then (QUOTE_IN_QUOTED_FIELD, field, fields)
      else (IN_QUOTED_FIELD, String c field, fields)
  | QUOTE_IN_QUOTED_FIELD =>
      if Ascii.eqb c quotechar then (IN_QUOTED_FIELD, String c field, fields)
      else if Ascii.eqb c ","%char then (START_FIELD, ""%string, String.rev field :: fields)
      else (IN_FIELD, String c field, fields)
  end.

Definition csv_scan (text : string) : csv_state * string * list string :=
  foldl csv_char (START_RECORD, ""%string, []) (String.list_ascii_of_string text).

(* the row of a record; an empty line is the empty row *)
Definition record_fields (text : string) : list string :=
  let '(state, field, fields) := csv_scan text in
  match state with
  | START_RECORD => []
  | _ => rev (String.rev field :: fields)
  end.

Definition in_quoted_field (text : string) : bool :=
  match csv_scan text with
  | (IN_QUOTED_FIELD, _, _) => true
  | _ => false
  end.

Definition is_leap (y : Z) : bool :=
  bool_decide (y `mod` 4 = 0) && (bool_decide (y `mod` 100 ≠ 0) || bool_decide (y `mod` 400 = 0)).

Definition days_in_month (y m : Z) : Z :=
  if bool_decide (m = 2) then (if is_leap y then 29 else 28)
  else if bool_decide (m = 4 ∨ m = 6 ∨ m = 9 ∨ m = 11) then 30 else 31.

Definition ordinal_of_ymd (y m d : Z) : Z :=
  let y' := if bool_decide (m ≤ 2) then y - 1 else y in
  let era := y' `div` 400 in
  let yoe := y' - era * 400 in
  let mp := if bool_decide (m > 2) then m - 3 else m + 9 in
  let doy := (153 * mp + 2) `div` 5 + d - 1 in
  let doe := yoe * 365 + yoe `div` 4 - yoe `div` 100 + doy in
  era * 146097 + doe - 305.

Definition ymd_of_ordinal (n : Z) : Z * Z * Z :=
  let z := n + 305 in
  let era := z `div` 146097 in
  let doe := z - era * 146097 in
  let yoe := (doe - doe `div` 1460 + doe `div` 36524 - doe `div` 146096) `div` 365 in
  let doy := doe - (365 * yoe + yoe `div` 4 - yoe `div` 100) in
  let mp := (5 * doy + 2) `div` 153 in
  let d := doy - (153 * mp + 2) `div` 5 + 1 in
  let m := if bool_decide (mp < 10) then mp + 3 else mp - 9 in
  let y := yoe + era * 400 in
  (if bool_decide (m ≤ 2) then y + 1 else y, m, d).

Definition parse_timestamp (s : string) : option datetime :=
  match String.list_ascii_of_string s with
  | [y1; y2; y3; y4; "-"; m1; m2; "-"; d1; d2; " "; h1; h2; ":"; n1; n2; ":"; s1; s2]%char =>
      y ← number [y1; y2; y3; y4];
      m ← number [m1; m2];
      d ← number [d1; d2];
      hh ← number [h1; h2];
      mm ← number [n1; n2];
      ss ← number [s1; s2];
      if bool_decide (1 ≤ y ∧ 1 ≤ m ≤ 12 ∧ 1 ≤ d ≤ days_in_month y m
                      ∧ hh < 24 ∧ mm < 60 ∧ ss < 60)
      then Some (mk_datetime (ordinal_of_ymd y m d) hh mm ss 0)
      else None
  | _ => None
  end.

Definition pad2 (n : Z) : string :=
  if bool_decide (n < 10) then "0" +:+ pretty n else pretty n.

Definition pad4 (n : Z) : string :=
  if bool_decide (n < 10) then "000" +:+ pretty n
  else if bool_decide (n < 100) then "00" +:+ pretty n
  else if bool_decide (n < 1000) then "0" +:+ pretty n
  else pretty n.

Definition format_date (n : Z) : string :=
  let '(y, m, d) := ymd_of_ordinal n in
  pad4 y +:+ "-" +:+ pad2 m +:+ "-" +:+ pad2 d.

Definition format_timestamp (t : datetime) : string :=
  format_date (dt_date t) +:+ " " +:+ pad2 (dt_hour t) +:+ ":" +:+
  pad2 (dt_minute t) +:+ ":" +:+ pad2 (dt_second t).

End FixedRuntime.

#[global] Instance fixed_runtime : Runtime := {|
  strptime := FixedRuntime.parse_timestamp;
  strftime := FixedRuntime.format_timestamp;
  strftime_date := FixedRuntime.format_date;
  int_of_str := FixedRuntime.parse_int;
  csv_fields := FixedRuntime.record_fields;
  csv_unfinished := FixedRuntime.in_quoted_field;
  LOGS_DIR := "csv_logs"
|}.

(** Two schedulers: completion in submission order, and in reverse. *)
Definition fifo : scheduler := mk_scheduler (λ A l, l) (λ A l, reflexivity l).
Definition lifo : scheduler := mk_scheduler (λ A l, reverse l) (λ A l, reverse_Permutation l).


(** ** Vocabulary of the statements *)

(** Element-wise sum of two metric vectors. *)
Definition vadd (v m : list Z) : list Z := zip_with Z.add v m.

(** Element-wise sum of two tables: a key of one table only keeps its
    vector, which is to count the absent vector as all zeros. *)
Definition table_sum (t1 t2 : table) : table :=
  union_with (λ v m, Some (vadd v m)) t1 t2.

(** Every vector of the table has the nine metric sums. *)
Definition table_wf (t : table) : Prop :=
  map_Forall (λ _ v, length v = 9%nat) t.

(** The granularity is one of the two the engine knows. *)
Definition valid_granularity (q : query) : bool :=
  String.eqb (granularity q) "30m" || String.eqb (granularity q) "1day".

(** What a worker can hand back for the query: a well-formed table, or the
    one exception the query allows (an invalid granularity is met before any
    metric is parsed; a valid one leaves only the metric literals to fail). *)
Definition query_exn (q : query) : exn :=
  if valid_granularity q then ValueError_int else ValueError_granularity.

Definition future_ok (q : query) (future : res (table * nat)) : Prop :=
  match future with
  | Ok (t, _) => table_wf t
  | Raise e => e = query_exn q
  end.

(** Summing the private tables of the partitions, and their row counts. *)
Definition sum_results (results : list (table * nat)) : table * nat :=
  foldr (λ '(t, n) '(acc, total), (table_sum t acc, (n + total)%nat)) (∅, 0%nat) results.

(** The query with its two filters replaced. *)
Definition with_filters (q : query) (user_filter app_filter : option (list string)) : query :=
  mk_query (from_dt q) (to_dt q) (granularity q) (dimensions q) user_filter app_filter.

Section Vocabulary.
Context {rt : Runtime}.

(** The records of the file of a day, as the csv reader yields them for
    the whole file (one per line when no quoted field spans lines); none
    when the file is missing. *)
Definition file_lines (fs : filesystem) (date_str : string) : list string :=
  match fs !! log_path date_str with
  | Some lines => csv_records lines
  | None => []
  end.

(** No line of the file leaves a quoted field open: the csv reader,
    wherever it is started, yields one record per line. *)
Definition one_record_per_line (lines : list string) : Prop :=
  Forall (λ line, csv_unfinished line = false) lines.

(** All the records the engine reads for a query: those of the existing
    files of the date range, day after day. *)
Definition scanned_lines (fs : filesystem) (q : query) : list string :=
  concat (file_lines fs <$> existing_files fs (get_date_range (from_dt q) (to_dt q))).

(** The line passes the field-count, user, app, timestamp and window
    tests of the query. *)
Definition accepted (q : query) (line : string) : bool :=
  match accept q (filter_set (user_filter q)) (filter_set (app_filter q)) (csv_fields line) with
  | Some _ => true
  | None => false
  end.

(** The aggregation key of an accepted line. *)
Definition row_key (q : query) (line : string) : option (list string) :=
  let row := csv_fields line in
  match accept q (filter_set (user_filter q)) (filter_set (app_filter q)) row with
  | Some row_dt =>
      match get_period_start row_dt (granularity q) with
      | Ok period_start =>
          Some (strftime period_start
                  :: dim_values (dimensions q) (row !!! 1%nat) (row !!! 2%nat))
      | Raise _ => None
      end
  | None => None
  end.

(** Number of lines aggregated under the key. *)
Definition multiplicity (q : query) (lines : list string) (key : list string) : nat :=
  length (filter (λ line, row_key q line = Some key) lines).

(** One of the metric fields (columns 3 to 11) is not an integer. *)
Definition malformed_metric (row : list string) : Prop :=
  Exists (λ i : nat, int_of_str (row !!! i) = None) (seq 3 9).

(** The line is accepted and then makes the worker raise: the granularity
    is invalid, or a metric field is malformed. *)
Definition row_raises (q : query) (line : string) : Prop :=
  accepted q line ∧ (valid_granularity q = false ∨ malformed_metric (csv_fields line)).

End Vocabulary.

(** ** Data of the worked examples *)

Definition ts (s : string) : datetime :=
  default (mk_datetime 0 0 0 0 0) (FixedRuntime.parse_timestamp s).

(** Two days of three records each; on each day one record of user u1,
    with metrics all 1 on the first day and all 2 on the second.  There is
    no file for 2025-01-03. *)
Definition ex_fs : filesystem :=
  {[ "csv_logs/2025-01-01.log.csv" :=
       [ "2025-01-01 00:47:00,u1,a1,1,1,1,1,1,1,1,1,1";
         "2025-01-01 09:10:00,u2,a1,5,5,5,5,5,5,5,5,5";
         "2025-01-01 23:59:59,u3,a2,7,7,7,7,7,7,7,7,7" ];
     "csv_logs/2025-01-02.log.csv" :=
       [ "2025-01-01 10:30:00,u1,a3,2,2,2,2,2,2,2,2,2";
         "2025-01-02 00:00:00,u2,a1,4,4,4,4,4,4,4,4,4";
         "truncated,line" ] ]}.

Definition ex_query : query :=
  mk_query (ts "2025-01-01 00:00:00") (ts "2025-01-03 00:00:00") "1day" ["user"]
           (Some ["u1"]) None.

(** The same query with a granularity the engine does not know. *)
Definition ex_query_1h : query :=
  mk_query (ts "2025-01-01 00:00:00") (ts "2025-01-03 00:00:00") "1h" ["user"]
           (Some ["u1"]) None.

(** The same query with no dimension selected. *)
Definition ex_query_nodim : query :=
  mk_query (ts "2025-01-01 00:00:00") (ts "2025-01-03 00:00:00") "1day" []
           (Some ["u1"]) None.

(** A file whose records are all of users other than u1. *)
Definition ex_fs_others : filesystem :=
  {[ "csv_logs/2025-01-01.log.csv" :=
       [ "2025-01-01 09:10:00,u2,a1,5,5,5,5,5,5,5,5,5" ] ]}.

(** A record of another user with a metric that is not an integer, and a
    record of u1 with a timestamp that is no timestamp and a metric that
    is not an integer. *)
Definition ex_line_filtered_bad_metric : string :=
  "2025-01-01 09:10:00,u2,a1,x,5,5,5,5,5,5,5,5".
Definition ex_line_bad_timestamp_bad_metric : string :=
  "yesterday,u1,a1,x,5,5,5,5,5,5,5,5".
Definition ex_fs_bad : filesystem :=
  {[ "csv_logs/2025-01-01.log.csv" := [ ex_line_bad_timestamp_bad_metric ] ]}.

(** A split of four records into partitions, one of them empty. *)
Definition ex_parts : list (list string) :=
  [ [ "2025-01-01 00:47:00,u1,a1,1,1,1,1,1,1,1,1,1" ];
    [];
    [ "2025-01-01 09:10:00,u2,a1,5,5,5,5,5,5,5,5,5";
      "2025-01-01 10:30:00,u1,a3,2,2,2,2,2,2,2,2,2" ];
    [ "2025-01-02 08:00:00,u1,a3,4,4,4,4,4,4,4,4,4" ] ].

(** A file of 100000 (empty) lines. *)
Definition ex_big_file : list string := replicate (Z.to_nat 100000) "".

(** A record stamped with the very start of the window of [ex_query]. *)
Definition ex_row_at_from : list string :=
  csv_fields "2025-01-01 00:00:00,u1,a1,1,1,1,1,1,1,1,1,1".

(** The table the engine returns for [ex_query] on [ex_fs]. *)
Definition ex_table : table :=
  {[ ["2025-01-01 00:00:00"; "u1"] := [3; 3; 3; 3; 3; 3; 3; 3; 3] ]}.

(** ** Further code of the two scripts *)

(** *** [aggregate_data] of the sequential script

    [read_log_file] is a generator: the loop of [aggregate_data] consumes
    each pair as soon as it is yielded, so what the reader does on a line
    and what the loop does with the pair it yields alternate, and the
    first exception of either ends the call. *)

Section SequentialAggregate.
Context {rt : Runtime}.

(** The body of the loop of [aggregate_data] on one yielded pair. *)
Definition aggregate_yield (q : query) (aggregated : table) (y : parsed_row * datetime)
    : res table :=
  let '(parsed, row_dt) := y in
  period_start ← get_period_start row_dt (granularity q);
  let period_str := strftime period_start in
  let key := period_str :: dim_values (dimensions q) (p_user parsed) (p_app parsed) in
  Ok (add_metrics aggregated key (p_metrics parsed)).

(** The reader advanced over one record, and what it yields consumed. *)
Definition aggregate_line (q : query) (user_set app_set : option (gset string))
    (aggregated : table) (line : string) : res table :=
  yielded ← read_row (from_dt q) (to_dt q) user_set app_set [] line;
  for_each (aggregate_yield q) aggregated yielded.

(** One day: nothing when the file is missing. *)
Definition aggregate_file (fs : filesystem) (q : query) (aggregated : table)
    (date_str : string) : res table :=
  match fs !! log_path date_str with
  | None => Ok aggregated
  | Some lines =>
      for_each (aggregate_line q (filter_set (user_filter q)) (filter_set (app_filter q)))
               aggregated (csv_records lines)
  end.

Definition aggregate_data (fs : filesystem) (q : query) : res table :=
  for_each (aggregate_file fs q) ∅ (get_date_range (from_dt q) (to_dt q)).

End SequentialAggregate.

(** *** The command line and the output file name

    [str.strip], [os.path.splitext] and the match of the compiled pattern
    [^name_(\d+)ext$] followed by [int(match.group(1))] are library calls,
    fields of the class [Shell].  The results directory is what the
    function asks of it: the names [os.listdir(RESULTS_DIR)] returns, and
    for which relative paths
    [os.path.exists(os.path.join(RESULTS_DIR, path))] holds. *)

Record results_dir : Type := mk_results_dir {
  listdir : list string;
  path_exists : string → bool
}.

Class Shell : Type := {
  str_strip : string → string;
  splitext : string → string * string;
  numbered : string → string → string → option Z
}.

(* s.split(',') *)
Definition str_split_commas (s : string) : list string := FixedRuntime.split_line s.

Section CommandLine.
Context {sh : Shell}.

(** [main]: the dimensions argument split, stripped and checked against
    [valid_dims]; [None] is [parser.error]. *)
Definition parse_dimensions (arg : string) : option (list string) :=
  let dimensions := str_strip <$> str_split_commas arg in
  if bool_decide (Forall (λ dim, dim ∈ ["user"; "app"]) dimensions)
  then Some dimensions else None.

(** [[u.strip() for u in args.user.split(',')] if args.user else None]. *)
Definition parse_filter (arg : option string) : option (list string) :=
  match arg with
  | Some s => if bool_decide (s = "") then None else Some (str_strip <$> str_split_commas s)
  | None => None
  end.

(** The loop over [os.listdir(RESULTS_DIR)]. *)
Definition max_number (name ext : string) (listing : list string) : Z :=
  foldl (λ max_num filename,
           match numbered name ext filename with
           | Some num => max_num `max` num
           | None => max_num
           end) 0 listing.

Definition get_next_output_filename (dir : results_dir) (base_name : string) : string :=
  let '(name, ext0) := splitext base_name in
  let ext := if bool_decide (ext0 = "") then ".csv" else ext0 in
  if negb (path_exists dir base_name) then base_name
  else name +:+ "_" +:+ pretty (max_number name ext (listdir dir) + 1) +:+ ext.

End CommandLine.

(** Instances of the library calls for the worked examples: spaces are
    stripped; the extension starts at the last dot of the last component
    of the path, unless only dots precede it there; a numbered name is the
    stem, an underscore, decimal digits and the extension. *)
Module FixedShell.

Fixpoint drop_spaces (l : list ascii) : list ascii :=
  match l with
  | " "%char :: l' => drop_spaces l'
  | _ => l
  end.

Definition strip (s : string) : string :=
  String.string_of_list_ascii
    (rev (drop_spaces (rev (drop_spaces (String.list_ascii_of_string s))))).

(* the path read from its end up to the last dot of its last component:
   the characters before that dot, still reversed, and the extension *)
Fixpoint split_last_dot (rev_chars : list ascii) (ext : list ascii)
    : option (list ascii * list ascii) :=
  match rev_chars with
  | [] => None
  | "/"%char :: _ => None
  | "."%char :: rest => Some (rest, "."%char :: ext)
  | a :: rest => split_last_dot rest (a :: ext)
  end.

(* only dots from the start of the last component to the last dot *)
Fixpoint leading_dots (stem_rev : list ascii) : bool :=
  match stem_rev with
  | [] => true
  | "/"%char :: _ => true
  | "."%char :: rest => leading_dots rest
  | _ :: _ => false
  end.

Definition split_ext (s : string) : string * string :=
  match split_last_dot (rev (String.list_ascii_of_string s)) [] with
  | Some (stem_rev, ext) =>
      if leading_dots stem_rev then (s, "")
      else (String.string_of_list_ascii (rev stem_rev), String.string_of_list_ascii ext)
  | None => (s, "")
  end.

Fixpoint strip_prefix (p l : list ascii) : option (list ascii) :=
  match p, l with
  | [], _ => Some l
  | a :: p', b :: l' => if Ascii.eqb a b then strip_prefix p' l' else None
  | _ :: _, [] => None
  end.

Definition match_number (name ext filename : string) : option Z :=
  rest ← strip_prefix (String.list_ascii_of_string (name +:+ "_"))
                      (String.list_ascii_of_string filename);
  digits_rev ← strip_prefix (rev (String.list_ascii_of_string ext)) (rev rest);
  FixedRuntime.number (rev digits_rev).

End FixedShell.

#[global] Instance fixed_shell : Shell := {|
  str_strip := FixedShell.strip;
  splitext := FixedShell.split_ext;
  numbered := FixedShell.match_number
|}.

(** *** Vocabulary of the further statements *)

(** The query with another window, and with other dimensions. *)
Definition with_window (q : query) (from_dt to_dt : datetime) : query :=
  mk_query from_dt to_dt (granularity q) (dimensions q) (user_filter q) (app_filter q).

Definition with_dimensions (q : query) (dimensions : list string) : query :=
  mk_query (from_dt q) (to_dt q) (granularity q) dimensions (user_filter q) (app_filter q).

Section FurtherVocabulary.
Context {rt : Runtime}.

(** The nine metrics of a line, zeros when they do not parse. *)
Definition line_metrics (line : string) : list Z :=
  match parse_metrics (csv_fields line) with
  | Ok metrics => metrics
  | Raise _ => zero_vector
  end.

(** The element-wise sum of the metrics of the lines aggregated under a
    key, in file order. *)
Definition key_total (q : query) (lines : list string) (key : list string) : list Z :=
  foldl vadd zero_vector
        (line_metrics <$> filter (λ line, row_key q line = Some key) lines).

(** Every line of at least 12 fields has integer metrics. *)
Definition metrics_well_formed (lines : list string) : Prop :=
  Forall (λ line, (12 ≤ length (csv_fields line))%nat → ¬ malformed_metric (csv_fields line))
         lines.

(** The pair a record stands for when it passes the tests of the query
    and its metrics are integers: its first three fields and its nine
    metrics, with the datetime of the first field. *)
Definition yielded_row (q : query) (line : string) : option (parsed_row * datetime) :=
  let row := csv_fields line in
  match accept q (filter_set (user_filter q)) (filter_set (app_filter q)) row,
        parse_metrics row with
  | Some row_dt, Ok metrics =>
      Some (mk_parsed (row !!! 0%nat) (row !!! 1%nat) (row !!! 2%nat) metrics, row_dt)
  | _, _ => None
  end.

End FurtherVocabulary.

(** The path names an entry of the directory itself: it has no separator
    and is neither empty nor one of the two dot names. *)
Definition entry_name (path : string) : Prop :=
  ("/"%char ∉ String.list_ascii_of_string path) ∧ path ≠ "" ∧ path ≠ "." ∧ path ≠ "..".

(** The directory lists its entries: an entry name that exists is among
    the names of the listing. *)
Definition lists_its_entries (dir : results_dir) : Prop :=
  ∀ path, entry_name path → path_exists dir path = true → path ∈ listdir dir.

(** The fields of a datetime are in the ranges Python keeps them in, as
    far as the statements need: none is negative. *)
Definition dt_nonneg (t : datetime) : Prop :=
  0 ≤ dt_hour t ∧ 0 ≤ dt_minute t ∧ 0 ≤ dt_second t ∧ 0 ≤ dt_microsecond t.

(** *** Data of the further worked examples *)

(** The query of the examples with both dimensions, in the order the
    engine uses and in the other order. *)
Definition ex_query_both : query := with_dimensions ex_query ["user"; "app"].

(** What the reader of the sequential script yields for the first day. *)
Definition ex_yields : list (parsed_row * datetime) :=
  [ (mk_parsed "2025-01-01 00:47:00" "u1" "a1" [1; 1; 1; 1; 1; 1; 1; 1; 1],
     ts "2025-01-01 00:47:00") ].

(** A file of 100000 records of user u1, one per line. *)
Definition ex_record : string := "2025-01-01 00:47:00,u1,a1,1,1,1,1,1,1,1,1,1".
Definition ex_big_log : list string := replicate (Z.to_nat 100000) ex_record.
Definition ex_big_fs : filesystem := {[ "csv_logs/2025-01-01.log.csv" := ex_big_log ]}.

(** A file of three lines and two records: the app field of the first
    record is quoted and runs over the first two lines. *)
Definition double_quote : string := String FixedRuntime.quotechar "".
Definition ex_multiline_log : list string :=
  [ "2025-01-01 00:47:00,u1," +:+ double_quote +:+ "a";
    "1" +:+ double_quote +:+ ",1,1,1,1,1,1,1,1,1";
    "2025-01-01 09:10:00,u1,a1,2,2,2,2,2,2,2,2,2" ].
Definition ex_multiline_fs : filesystem :=
  {[ "csv_logs/2025-01-01.log.csv" := ex_multiline_log ]}.

(** A results directory that holds files only: what exists is what is
    listed. *)
Definition flat_dir (listing : list string) : results_dir :=
  mk_results_dir listing (λ path, bool_decide (path ∈ listing)).

(** A results directory with the requested name and two numbered ones. *)
Definition ex_listing : list string :=
  ["result.csv"; "result_1.csv"; "notes.txt"; "result_7.csv"].

(** A results directory whose one entry is a directory with two files. *)
Definition ex_nested_dir : results_dir :=
  mk_results_dir ["sub"] (λ path, bool_decide (path ∈ ["sub"; "sub/x.csv"; "sub/x_1.csv"])).

(** * Properties *)

(** ** The order on datetimes *)

Section ListCmp.
Context {A : Type} `{Lexico A} (cmp : A → A → comparison).
Hypothesis cmp_Lt : ∀ x y, cmp x y = Lt ↔ lexico x y.
Hypothesis cmp_Eq : ∀ x y, cmp x y = Eq ↔ x = y.
Hypothesis cmp_Gt : ∀ x y, cmp x y = Gt ↔ lexico y x.
Hypothesis lexico_irrefl : ∀ x : A, ¬ lexico x x.

Lemma list_cmp_Eq (a b : list A) : list_cmp cmp a b = Eq ↔ a = b.
Proof.
  revert b. induction a as [|x a IH]; intros [|y b]; simpl; try done.
  destruct (cmp x y) eqn:Hc.
  - apply cmp_Eq in Hc as ->. rewrite IH. split; [by intros ->|by intros [= ->]].
  - split; [done|]. intros [= -> _]. apply cmp_Lt in Hc. by apply lexico_irrefl in Hc.
  - split; [done|]. intros [= -> _]. apply cmp_Gt in Hc. by apply lexico_irrefl in Hc.
Qed.

Lemma list_cmp_Lt (a b : list A) : list_cmp cmp a b = Lt ↔ lexico a b.
Proof.
  revert b. induction a as [|x a IH]; intros [|y b]; simpl; try done.
  change (lexico (x :: a) (y :: b)) with (lexico (x, a) (y, b)).
  unfold lexico at 1, prod_lexico; simpl.
  destruct (cmp x y) eqn:Hc.
  - apply cmp_Eq in Hc as ->. rewrite IH. split; [by right|].
    intros [Hl|[_ ?]]; [by apply lexico_irrefl in Hl|done].
  - apply cmp_Lt in Hc. split; [by left|done].
  - split; [done|]. intros [Hl|[-> _]].
    + apply cmp_Lt in Hl. congruence.
    + apply cmp_Gt in Hc. by apply lexico_irrefl in Hc.
Qed.

Lemma list_cmp_Gt (a b : list A) : list_cmp cmp a b = Gt ↔ lexico b a.
Proof.
  revert b. induction a as [|x a IH]; intros [|y b]; simpl; try done.
  change (lexico (y :: b) (x :: a)) with (lexico (y, b) (x, a)).
  unfold lexico at 1, prod_lexico; simpl.
  destruct (cmp x y) eqn:Hc.
  - apply cmp_Eq in Hc as ->. rewrite IH. split; [by right|].
    intros [Hl|[_ ?]]; [by apply lexico_irrefl in Hl|done].
  - split; [done|]. intros [Hl|[-> _]].
    + apply cmp_Gt in Hl. congruence.
    + apply cmp_Lt in Hc. by apply lexico_irrefl in Hc.
  - apply cmp_Gt in Hc. split; [by left|done].
Qed.

End ListCmp.

Lemma Z_cmp_Lt (x y : Z) : (x ?= y) = Lt ↔ lexico x y.
Proof. apply Z.compare_lt_iff. Qed.
Lemma Z_cmp_Gt (x y : Z) : (x ?= y) = Gt ↔ lexico y x.
Proof. rewrite Z.compare_gt_iff. done. Qed.
Lemma Z_lexico_irrefl (x : Z) : ¬ lexico x x.
Proof. apply (irreflexivity (@lexico Z _)). Qed.

Lemma cmp_fields_Lt (a b : list Z) : list_cmp Z.compare a b = Lt ↔ lexico a b.
Proof.
  apply list_cmp_Lt; auto using Z_cmp_Lt, Z.compare_eq_iff, Z_cmp_Gt, Z_lexico_irrefl.
Qed.

Lemma cmp_fields_Eq (a b : list Z) : list_cmp Z.compare a b = Eq ↔ a = b.
Proof.
  apply list_cmp_Eq; auto using Z_cmp_Lt, Z.compare_eq_iff, Z_cmp_Gt, Z_lexico_irrefl.
Qed.

Lemma dt_fields_inj a b : dt_fields a = dt_fields b → a = b.
Proof. destruct a, b. unfold dt_fields; simpl. by intros [= -> -> -> -> ->]. Qed.

Lemma dt_ltb_lt a b : dt_ltb a b = true ↔ dt_lt a b.
Proof.
  unfold dt_ltb, dt_lt, dt_cmp. rewrite <- cmp_fields_Lt.
  destruct (list_cmp _ _ _); split; done.
Qed.

Lemma dt_lt_irrefl a : ¬ dt_lt a a.
Proof. apply (irreflexivity (@lexico (list Z) _)). Qed.

Lemma dt_lt_trichotomy a b : dt_lt a b ∨ a = b ∨ dt_lt b a.
Proof.
  unfold dt_lt.
  destruct (trichotomyT lexico (dt_fields a) (dt_fields b)) as [[?|Heq]|?]; auto.
  right; left. by apply dt_fields_inj.
Qed.

Lemma dt_lt_asym a b : dt_lt a b → ¬ dt_lt b a.
Proof.
  unfold dt_lt. intros H1 H2.
  apply (irreflexivity (@lexico (list Z) _) (dt_fields a)). by etrans.
Qed.

(** [a >= b] holds exactly when [b <= a]. *)
Lemma dt_geb_le a b : dt_geb a b = true ↔ dt_le b a.
Proof.
  unfold dt_geb, dt_le. destruct (dt_cmp a b) eqn:Hc; unfold dt_cmp in Hc.
  - apply cmp_fields_Eq, dt_fields_inj in Hc. subst. split; [by left|done].
  - apply cmp_fields_Lt in Hc. split; [done|].
    intros [->|Hlt]; exfalso.
    + by apply (dt_lt_irrefl a).
    + by apply (dt_lt_asym a b).
  - split; [|done]. intros _.
    destruct (dt_lt_trichotomy a b) as [Hlt|[->|Hgt]].
    + apply cmp_fields_Lt in Hlt. congruence.
    + by left.
    + by right.
Qed.

Lemma dt_ltb_false a b : dt_ltb a b = false ↔ dt_le b a.
Proof.
  rewrite <- dt_geb_le. unfold dt_ltb, dt_geb. destruct (dt_cmp a b); split; done.
Qed.

Lemma dt_geb_false a b : dt_geb a b = false ↔ dt_lt a b.
Proof.
  rewrite <- dt_ltb_lt. unfold dt_ltb, dt_geb. destruct (dt_cmp a b); split; done.
Qed.

(** A timestamp passes the window test exactly when it lies in
    [[from_dt, to_dt)]. *)
Lemma outside_window_false from_dt to_dt row_dt :
  outside_window from_dt to_dt row_dt = false ↔ dt_le from_dt row_dt ∧ dt_lt row_dt to_dt.
Proof.
  unfold outside_window. rewrite orb_false_iff, dt_ltb_false, dt_geb_false. done.
Qed.

Section Window.
Context {rt : Runtime}.

(** C5. A row that reaches the time filter (at least 12 fields, user and
    app not filtered out, timestamp parsed to [row_dt]) is accepted iff
    [from_dt <= row_dt < to_dt]; a timestamp equal to [to_dt] is rejected,
    and one equal to [from_dt] is accepted (the window being non-empty). *)
Theorem window_half_open (q : query) (user_set app_set : option (gset string))
    (row : list string) (row_dt : datetime) :
  (12 ≤ length row)%nat →
  filtered_out user_set (row !!! 1%nat) = false →
  filtered_out app_set (row !!! 2%nat) = false →
  parse_datetime (row !!! 0%nat) = Some row_dt →
  (accept q user_set app_set row = Some row_dt
     ↔ dt_le (from_dt q) row_dt ∧ dt_lt row_dt (to_dt q))
  ∧ (¬ (dt_le (from_dt q) row_dt ∧ dt_lt row_dt (to_dt q))
     → accept q user_set app_set row = None)
  ∧ (row_dt = to_dt q → accept q user_set app_set row = None)
  ∧ (row_dt = from_dt q → dt_lt (from_dt q) (to_dt q)
     → accept q user_set app_set row = Some row_dt).
Proof.
  intros Hlen Hu Ha Hts.
  assert (Hacc : accept q user_set app_set row =
                 if outside_window (from_dt q) (to_dt q) row_dt then None else Some row_dt).
  { unfold accept. rewrite bool_decide_eq_false_2 by lia. by rewrite Hu, Ha, Hts. }
  rewrite Hacc.
  pose proof (outside_window_false (from_dt q) (to_dt q) row_dt) as Hw.
  destruct (outside_window _ _ _) eqn:Ho.
  - repeat split; try done.
    + intros H. apply Hw in H. done.
    + intros -> Hlt. exfalso.
      assert (true = false) as Hft; [|done].
      apply Hw. split; [by left|done].
  - destruct Hw as [Hw _]. specialize (Hw eq_refl) as [Hle Hlt].
    repeat split; try done.
    + intros Hn. by destruct Hn.
    + intros ->. exfalso. by apply (dt_lt_irrefl (to_dt q)).
Qed.

End Window.

(** ** The chunk planner *)

Lemma plan_chunk_size_pos (L N : Z) : 1 ≤ L → 1 ≤ N → 1 ≤ plan_chunk_size L N.
Proof.
  intros HL HN. unfold plan_chunk_size.
  apply Z.div_le_lower_bound; lia.
Qed.

(** The chunk size is the ceiling of [L / N]. *)
Lemma plan_chunk_size_ceil (L N : Z) :
  1 ≤ N → L ≤ N * plan_chunk_size L N < L + N.
Proof.
  intros HN. unfold plan_chunk_size.
  pose proof (Z.div_mod (L + N - 1) N ltac:(lia)) as Hdm.
  pose proof (Z.mod_pos_bound (L + N - 1) N ltac:(lia)) as Hm.
  lia.
Qed.

Lemma concat_takes {A} (lines : list A) (c n : nat) :
  concat ((λ i : nat, take c (drop (i * c) lines)) <$> seq 0 n) = take (n * c) lines.
Proof.
  induction n as [|n IH]; [done|].
  rewrite seq_S, fmap_app, concat_app, IH. simpl.
  rewrite app_nil_r, take_take_drop. f_equal. lia.
Qed.

Lemma chunk_plan_lookup (L N : Z) (i : nat) (s c : Z) :
  chunk_plan L N !! i = Some (s, c)
  ↔ Z.of_nat i < N ∧ c = plan_chunk_size L N ∧ s = Z.of_nat i * c.
Proof.
  unfold chunk_plan. rewrite list_lookup_fmap.
  destruct (seqZ 0 N !! i) as [k|] eqn:Hk; simpl.
  - apply lookup_seqZ in Hk as [-> Hlt]. split.
    + intros [= <- <-]. repeat split; try done; lia.
    + intros (_ & -> & ->). do 2 f_equal; lia.
  - split; [done|]. intros (Hlt & _).
    rewrite lookup_seqZ_lt in Hk by done. done.
Qed.

Lemma chunk_plan_length (L N : Z) : length (chunk_plan L N) = Z.to_nat N.
Proof. unfold chunk_plan. by rewrite length_fmap, length_seqZ. Qed.

(** The range of one planned chunk, as positions of the file. *)
Lemma planned_chunk_lines {A} (lines : list A) (N : Z) :
  1 ≤ Z.of_nat (length lines) → 1 ≤ N →
  (λ '(s, c), chunk_lines lines s (Some c)) <$> chunk_plan (Z.of_nat (length lines)) N
  = (λ i : nat, take (Z.to_nat (plan_chunk_size (Z.of_nat (length lines)) N))
                     (drop (i * Z.to_nat (plan_chunk_size (Z.of_nat (length lines)) N)) lines))
      <$> seq 0 (Z.to_nat N).
Proof.
  intros HL HN.
  pose proof (plan_chunk_size_pos _ _ HL HN) as Hc.
  apply list_eq. intros i. rewrite !list_lookup_fmap.
  destruct (chunk_plan _ N !! i) as [[s c]|] eqn:Hi; simpl.
  - apply chunk_plan_lookup in Hi as (Hlt & -> & ->).
    rewrite lookup_seq_lt by lia. simpl. f_equal.
    unfold chunk_lines. rewrite bool_decide_eq_false_2 by lia.
    do 2 f_equal. lia.
  - destruct (decide (Z.of_nat i < N)) as [Hlt|Hge].
    + assert (is_Some (chunk_plan (Z.of_nat (length lines)) N !! i)) as [? Hs]; [|congruence].
      apply lookup_lt_is_Some. rewrite chunk_plan_length. lia.
    + rewrite lookup_seq_ge by lia. done.
Qed.


Lemma chunk_lines_length {A} (lines : list A) (s c : Z) :
  0 ≤ s → 1 ≤ c →
  Z.of_nat (length (chunk_lines lines s (Some c)))
  = 0 `max` (c `min` (Z.of_nat (length lines) - s)).
Proof.
  intros Hs Hc. unfold chunk_lines. rewrite bool_decide_eq_false_2 by lia.
  rewrite length_take, length_drop. lia.
Qed.

(** When the worker count is small against the line count, no chunk but
    the last is cut short. *)
Lemma plan_full_chunks (L N : Z) :
  1 ≤ N → N * (N - 1) ≤ L → (N - 1) * plan_chunk_size L N ≤ L.
Proof.
  intros HN Hsmall. pose proof (plan_chunk_size_ceil L N HN) as Hceil. nia.
Qed.

(** C3, as the code has it.  The plan has exactly N chunks; chunk i holds
    [min(ceil(L/N), L - i*ceil(L/N))] lines, none when it starts at or
    after the end of the file.  When [(N-1) * ceil(L/N) <= L], which
    holds whenever [N * (N-1) <= L], the first N-1 chunks hold exactly
    [ceil(L/N)] lines each and the last one the remaining
    [L - (N-1) * ceil(L/N)]. *)
Theorem chunk_sizes {A : Type} (lines : list A) (N : Z) :
  PARALLEL_THRESHOLD ≤ Z.of_nat (length lines) → 2 ≤ N →
  let L := Z.of_nat (length lines) in
  let cs := plan_chunk_size L N in
  let plan := chunk_plan L N in
  let size_of (p : Z * Z) := Z.of_nat (length (chunk_lines lines p.1 (Some p.2))) in
  Z.of_nat (length plan) = N
  ∧ (∀ (i : nat) p, plan !! i = Some p →
       size_of p = 0 `max` (cs `min` (L - Z.of_nat i * cs)))
  ∧ (N * (N - 1) ≤ L → (N - 1) * cs ≤ L)
  ∧ ((N - 1) * cs ≤ L →
       (∀ (i : nat) p, plan !! i = Some p → Z.of_nat i < N - 1 → size_of p = cs)
       ∧ (∀ p, plan !! Z.to_nat (N - 1) = Some p → size_of p = L - (N - 1) * cs)).
Proof.
  unfold PARALLEL_THRESHOLD. intros HL HN. cbv zeta.
  set (L := Z.of_nat (length lines)) in *.
  pose proof (plan_chunk_size_pos L N ltac:(lia) ltac:(lia)) as Hc.
  assert (Hsize : ∀ (i : nat) p, chunk_plan L N !! i = Some p →
            Z.of_nat (length (chunk_lines lines p.1 (Some p.2)))
            = 0 `max` (plan_chunk_size L N `min` (L - Z.of_nat i * plan_chunk_size L N))).
  { intros i [s c] Hi. apply chunk_plan_lookup in Hi as (Hlt & -> & ->). cbn [fst snd].
    rewrite chunk_lines_length by nia. done. }
  split; [rewrite chunk_plan_length; lia|].
  split; [exact Hsize|].
  split; [apply plan_full_chunks; lia|].
  intros Hfull.
  pose proof (plan_chunk_size_ceil L N ltac:(lia)) as Hceil. split.
  - intros i p Hi Hlt. rewrite (Hsize i p Hi).
    assert (Z.of_nat i * plan_chunk_size L N ≤ (N - 2) * plan_chunk_size L N) by nia.
    lia.
  - intros p Hi. rewrite (Hsize _ p Hi). rewrite Z2Nat.id by lia. lia.
Qed.

(** C3 as stated fails for many workers: with 100000 lines and 330
    workers the chunk size is 304, and the chunk of index 328, one of the
    first N-1, holds 288 lines. *)
Lemma chunk_sizes_counterexample :
  let lines := replicate (Z.to_nat 100000) ""%string in
  let L := Z.of_nat (length lines) in
  PARALLEL_THRESHOLD ≤ L ∧ 2 ≤ 330
  ∧ plan_chunk_size L 330 = 304
  ∧ ∃ s c, chunk_plan L 330 !! 328%nat = Some (s, c)
           ∧ 328 < 330 - 1
           ∧ Z.of_nat (length (chunk_lines lines s (Some c))) = 288.
Proof.
  cbv zeta. rewrite length_replicate, Z2Nat.id by lia.
  split; [by vm_compute|]. split; [lia|]. split; [by vm_compute|].
  exists 99712, 304. split; [by vm_compute|]. split; [lia|].
  rewrite chunk_lines_length, length_replicate by lia. lia.
Qed.

(** ** Accumulating and merging *)

Lemma vadd_comm v m : vadd v m = vadd m v.
Proof.
  unfold vadd. revert m. induction v as [|x v IH]; intros [|y m]; simpl; try done.
  f_equal; [lia|apply IH].
Qed.

Lemma vadd_assoc u v m : vadd (vadd u v) m = vadd u (vadd v m).
Proof.
  unfold vadd. revert v m.
  induction u as [|x u IH]; intros [|y v] [|z m]; simpl; try done.
  f_equal; [lia|apply IH].
Qed.

Lemma vadd_length v m : length v = 9%nat → length m = 9%nat → length (vadd v m) = 9%nat.
Proof. intros Hv Hm. unfold vadd. rewrite length_zip_with. lia. Qed.

Lemma vadd_zero m : length m = 9%nat → vadd zero_vector m = m.
Proof.
  intros Hm. do 10 (destruct m as [|? m]; try done).
Qed.

(** The nine indexed updates amount to the element-wise sum. *)
Lemma indexed_updates_vadd (v m : list Z) :
  length v = 9%nat → length m = 9%nat →
  foldl (λ (w : list Z) (i : nat), <[i := (w !!! i) + (m !!! i)]> w) v (seq 0 9) = vadd v m.
Proof.
  intros Hv Hm.
  do 10 (destruct v as [|? v]; try done).
  do 10 (destruct m as [|? m]; try done).
Qed.

Lemma add_metrics_from (key : list string) (m : list Z) (idx : list nat) (t : table) (w : list Z) :
  t !! key = Some w →
  foldl (λ (agg : table) (i : nat),
           let v := default zero_vector (agg !! key) in
           <[key := <[i := (v !!! i) + (m !!! i)]> v]> agg) t idx
  = <[key := foldl (λ (w : list Z) (i : nat), <[i := (w !!! i) + (m !!! i)]> w) w idx]> t.
Proof.
  revert t w. induction idx as [|i idx IH]; intros t w Hw; simpl.
  - by rewrite insert_id.
  - rewrite Hw; simpl.
    rewrite (IH _ (<[i := (w !!! i) + (m !!! i)]> w)) by apply lookup_insert_eq.
    by rewrite insert_insert_eq.
Qed.

(** [add_metrics] replaces the vector of the key, the zero vector if the
    key is new, by its element-wise sum with the metrics. *)
Lemma add_metrics_spec (t : table) (key : list string) (m : list Z) :
  table_wf t → length m = 9%nat →
  add_metrics t key m = <[key := vadd (default zero_vector (t !! key)) m]> t.
Proof.
  intros Hwf Hm. unfold add_metrics.
  assert (Hv : length (default zero_vector (t !! key)) = 9%nat).
  { destruct (t !! key) as [v|] eqn:Hk; simpl; [|done]. by apply (Hwf key v). }
  change (seq 0 9) with (0%nat :: seq 1 8). cbn [foldl].
  erewrite add_metrics_from by apply lookup_insert_eq.
  rewrite insert_insert_eq. f_equal.
  rewrite <- (indexed_updates_vadd _ m Hv Hm). done.
Qed.

Lemma table_wf_empty : table_wf ∅.
Proof. apply map_Forall_empty. Qed.

Lemma table_wf_sum t1 t2 : table_wf t1 → table_wf t2 → table_wf (table_sum t1 t2).
Proof.
  intros H1 H2 k v Hk. unfold table_sum in Hk.
  apply lookup_union_with_Some in Hk as [[Hk _]|[[_ Hk]|(x & y & Hx & Hy & [= <-])]].
  - by apply (H1 k v).
  - by apply (H2 k v).
  - apply vadd_length; [by apply (H1 k x)|by apply (H2 k y)].
Qed.

Lemma table_wf_add_metrics t key m :
  table_wf t → length m = 9%nat → table_wf (add_metrics t key m).
Proof.
  intros Hwf Hm. rewrite add_metrics_spec by done.
  apply map_Forall_insert_2; [|done].
  apply vadd_length; [|done].
  destruct (t !! key) as [v|] eqn:Hk; simpl; [by apply (Hwf key v)|done].
Qed.

Lemma table_sum_empty_r t : table_sum t ∅ = t.
Proof.
  apply map_eq. intros k. unfold table_sum.
  rewrite lookup_union_with, lookup_empty. by destruct (t !! k).
Qed.

Lemma table_sum_empty_l t : table_sum ∅ t = t.
Proof.
  apply map_eq. intros k. unfold table_sum.
  rewrite lookup_union_with, lookup_empty. by destruct (t !! k).
Qed.

Lemma table_sum_comm t1 t2 : table_sum t1 t2 = table_sum t2 t1.
Proof.
  apply map_eq. intros k. unfold table_sum. rewrite !lookup_union_with.
  destruct (t1 !! k), (t2 !! k); simpl; try done. by rewrite vadd_comm.
Qed.

Lemma table_sum_assoc t1 t2 t3 :
  table_sum (table_sum t1 t2) t3 = table_sum t1 (table_sum t2 t3).
Proof.
  apply map_eq. intros k. unfold table_sum. rewrite !lookup_union_with.
  destruct (t1 !! k), (t2 !! k), (t3 !! k); simpl; try done. by rewrite vadd_assoc.
Qed.

(** Adding the metrics of one record is summing with a one-key table. *)
Lemma add_metrics_sum t key m :
  table_wf t → length m = 9%nat → add_metrics t key m = table_sum t {[key := m]}.
Proof.
  intros Hwf Hm. rewrite add_metrics_spec by done.
  apply map_eq. intros k. unfold table_sum. rewrite lookup_union_with.
  destruct (decide (k = key)) as [->|Hne].
  - rewrite lookup_insert_eq, lookup_singleton_eq.
    destruct (t !! key); [done|].
    change (Some (vadd zero_vector m) = Some m). by rewrite vadd_zero.
  - rewrite lookup_insert_ne, lookup_singleton_ne by done. by destruct (t !! k).
Qed.

(** The merge loop over the items of a partial table, in whatever order
    they are listed, is the element-wise sum. *)
Lemma merge_items_sum (combined : table) (items : list (list string * list Z)) :
  table_wf combined → NoDup items.*1 → Forall (λ it, length it.2 = 9%nat) items →
  merge_items combined items = table_sum combined (list_to_map items).
Proof.
  revert combined. induction items as [|[k m] items IH]; intros c Hwf Hnd Hlen.
  - simpl. by rewrite table_sum_empty_r.
  - apply NoDup_cons in Hnd as [Hk Hnd]. apply Forall_cons in Hlen as [Hm Hlen].
    simpl in *. unfold merge_items in *. simpl.
    rewrite IH by (auto using table_wf_add_metrics).
    rewrite add_metrics_sum by done.
    rewrite table_sum_assoc. f_equal.
    apply map_eq. intros k'. unfold table_sum. rewrite lookup_union_with.
    destruct (decide (k' = k)) as [->|Hne].
    + rewrite lookup_singleton_eq, lookup_insert_eq.
      rewrite (not_elem_of_list_to_map_1 _ k) by done. done.
    + rewrite lookup_singleton_ne, lookup_insert_ne by done.
      by destruct (list_to_map items !! k').
Qed.

Lemma merge_partial_sum (combined partial : table) :
  table_wf combined → table_wf partial →
  merge_partial combined partial = table_sum combined partial.
Proof.
  intros Hc Hp. unfold merge_partial.
  rewrite merge_items_sum; [by rewrite list_to_map_to_list|done|apply NoDup_fst_map_to_list|].
  apply Forall_forall. intros [k v] Hin. apply elem_of_map_to_list in Hin. by apply (Hp k v).
Qed.

(** The order in which [partial.items()] lists the items is immaterial. *)
Lemma merge_items_order (combined partial : table) (items : list (list string * list Z)) :
  table_wf combined → table_wf partial → items ≡ₚ map_to_list partial →
  merge_items combined items = merge_partial combined partial.
Proof.
  intros Hc Hp Hperm. rewrite merge_partial_sum by done.
  assert (Hnd : NoDup items.*1).
  { rewrite Hperm. apply NoDup_fst_map_to_list. }
  rewrite merge_items_sum; [|done|done|].
  - f_equal. rewrite (list_to_map_proper items (map_to_list partial)) by done.
    apply list_to_map_to_list.
  - apply Forall_forall. intros [k v] Hin. rewrite Hperm in Hin.
    apply elem_of_map_to_list in Hin. by apply (Hp k v).
Qed.

(** ** The row loop of a worker *)

#[global] Arguments process_row : simpl never.
#[global] Arguments add_metrics : simpl never.
#[global] Arguments merge_partial : simpl never.
#[global] Arguments merge_future : simpl never.
#[global] Arguments collect_future : simpl never.

Lemma for_each_app {S X} (body : S → X → res S) (s : S) (xs ys : list X) :
  for_each body s (xs ++ ys) = s' ← for_each body s xs; for_each body s' ys.
Proof.
  revert s. induction xs as [|x xs IH]; intros s; simpl; [done|].
  destruct (body s x) as [s'|e]; simpl; [apply IH|done].
Qed.

Section Worker.
Context {rt : Runtime}.

Lemma mapM_res_length {X Y} (f : X → res Y) (l : list X) (k : list Y) :
  mapM f l = Ok k → length k = length l.
Proof.
  revert k. induction l as [|x l IH]; intros k; simpl.
  - by intros [= <-].
  - destruct (f x) as [y|e]; simpl; [|done].
    destruct (mapM f l) as [k'|e]; simpl; [|done].
    intros [= <-]. simpl. f_equal. by apply IH.
Qed.

Lemma parse_metrics_length row m : parse_metrics row = Ok m → length m = 9%nat.
Proof. intros H. by apply mapM_res_length in H. Qed.

Lemma mapM_res_exn {X Y} (f : X → res Y) (l : list X) (e0 e : exn) :
  (∀ x e', f x = Raise e' → e' = e0) → mapM f l = Raise e → e = e0.
Proof.
  intros Hf. induction l as [|x l IH]; simpl; [done|].
  destruct (f x) as [y|e'] eqn:Hx; simpl.
  - destruct (mapM f l) as [k'|e'']; simpl; [done|]. intros [= <-]. by apply IH.
  - intros [= <-]. by apply (Hf x).
Qed.

Lemma parse_metrics_exn row e : parse_metrics row = Raise e → e = ValueError_int.
Proof.
  apply mapM_res_exn. intros i e'. by destruct (int_of_str _); intros [= <-].
Qed.

Lemma get_period_start_exn ts g e :
  get_period_start ts g = Raise e →
  e = ValueError_granularity ∧ String.eqb g "30m" || String.eqb g "1day" = false.
Proof.
  unfold get_period_start.
  destruct (String.eqb g "30m"); [done|]. destruct (String.eqb g "1day"); [done|].
  by intros [= <-].
Qed.

Lemma get_period_start_valid ts g :
  String.eqb g "30m" || String.eqb g "1day" = true → ∃ p, get_period_start ts g = Ok p.
Proof.
  unfold get_period_start.
  destruct (String.eqb g "30m"); [by eexists|]. destruct (String.eqb g "1day"); [by eexists|done].
Qed.

Lemma get_period_start_invalid ts g :
  String.eqb g "30m" || String.eqb g "1day" = false →
  get_period_start ts g = Raise ValueError_granularity.
Proof.
  unfold get_period_start.
  destruct (String.eqb g "30m"); [done|]. by destruct (String.eqb g "1day").
Qed.

(** A worker raises only the exception its query allows. *)
Lemma process_row_exn q us aps st line e :
  process_row q us aps st line = Raise e → e = query_exn q.
Proof.
  unfold process_row, query_exn, valid_granularity. destruct st as [t n].
  destruct (accept q us aps (csv_fields line)) as [row_dt|]; [|done].
  destruct (get_period_start row_dt (granularity q)) as [p|e'] eqn:Hp; simpl.
  - destruct (String.eqb (granularity q) "30m" || String.eqb (granularity q) "1day") eqn:Hg.
    + destruct (parse_metrics _) as [m|e'] eqn:Hm; simpl; [done|].
      intros [= <-]. by apply parse_metrics_exn in Hm.
    + rewrite get_period_start_invalid in Hp by done. done.
  - intros [= <-]. apply get_period_start_exn in Hp as [-> ->]. done.
Qed.

Lemma process_row_wf q us aps t n line t' n' :
  table_wf t → process_row q us aps (t, n) line = Ok (t', n') → table_wf t'.
Proof.
  intros Hwf. unfold process_row.
  destruct (accept q us aps (csv_fields line)) as [row_dt|]; [|by intros [= <- <-]].
  destruct (get_period_start row_dt (granularity q)) as [p|e']; simpl; [|done].
  destruct (parse_metrics _) as [m|e'] eqn:Hm; simpl; [|done].
  intros [= <- <-]. apply table_wf_add_metrics; [done|]. by apply parse_metrics_length in Hm.
Qed.

(** A row folded into a table is the row folded into an empty table,
    then summed in. *)
Lemma process_row_shift q us aps t n line :
  table_wf t →
  process_row q us aps (t, n) line
  = '(t1, n1) ← process_row q us aps (∅, 0%nat) line; Ok (table_sum t t1, (n + n1)%nat).
Proof.
  intros Hwf. unfold process_row.
  destruct (accept q us aps (csv_fields line)) as [row_dt|]; simpl.
  - destruct (get_period_start row_dt (granularity q)) as [p|e']; simpl; [|done].
    destruct (parse_metrics _) as [m|e'] eqn:Hm; simpl; [|done].
    apply parse_metrics_length in Hm.
    rewrite (add_metrics_sum t) by done.
    rewrite (add_metrics_sum ∅) by auto using table_wf_empty.
    rewrite table_sum_empty_l. do 2 f_equal. lia.
  - rewrite table_sum_empty_r. do 2 f_equal. lia.
Qed.

Lemma rows_wf q us aps t n lines t' n' :
  table_wf t →
  for_each (process_row q us aps) (t, n) lines = Ok (t', n') → table_wf t'.
Proof.
  revert t n. induction lines as [|l lines IH]; intros t n Hwf; simpl.
  - by intros [= <- <-].
  - destruct (process_row q us aps (t, n) l) as [[t1 n1]|e] eqn:Hl; simpl; [|done].
    apply IH. by eapply process_row_wf.
Qed.

Lemma rows_exn q us aps st lines e :
  for_each (process_row q us aps) st lines = Raise e → e = query_exn q.
Proof.
  revert st. induction lines as [|l lines IH]; intros st; simpl; [done|].
  destruct (process_row q us aps st l) as [st1|e'] eqn:Hl; simpl; [apply IH|].
  intros [= <-]. by eapply process_row_exn.
Qed.

Lemma rows_shift q us aps t n lines :
  table_wf t →
  for_each (process_row q us aps) (t, n) lines
  = '(t1, n1) ← for_each (process_row q us aps) (∅, 0%nat) lines;
    Ok (table_sum t t1, (n + n1)%nat).
Proof.
  revert t n. induction lines as [|l lines IH]; intros t n Hwf; simpl.
  - rewrite table_sum_empty_r. do 2 f_equal. lia.
  - rewrite (process_row_shift _ _ _ t n) by done.
    destruct (process_row q us aps (∅, 0%nat) l) as [[t1 n1]|e] eqn:Hl; simpl; [|done].
    assert (table_wf t1) by (eapply process_row_wf; [apply table_wf_empty|done]).
    rewrite (IH (table_sum t t1)) by auto using table_wf_sum.
    rewrite (IH t1) by done.
    destruct (for_each _ (∅, 0%nat) lines) as [[t2 n2]|e]; simpl; [|done].
    rewrite table_sum_assoc. do 2 f_equal. lia.
Qed.

Lemma process_lines_ok q lines : future_ok q (process_lines q lines).
Proof.
  unfold future_ok. destruct (process_lines q lines) as [[t n]|e] eqn:Hp.
  - eapply rows_wf; [apply table_wf_empty|exact Hp].
  - by eapply rows_exn.
Qed.

(** Two consecutive runs of lines: process each apart and sum. *)
Lemma process_lines_app q l1 l2 :
  process_lines q (l1 ++ l2)
  = '(t1, n1) ← process_lines q l1; '(t2, n2) ← process_lines q l2;
    Ok (table_sum t1 t2, (n1 + n2)%nat).
Proof.
  unfold process_lines. rewrite for_each_app.
  destruct (for_each _ (∅, 0%nat) l1) as [[t1 n1]|e] eqn:H1; simpl; [|done].
  apply rows_shift. eapply rows_wf; [apply table_wf_empty|exact H1].
Qed.

End Worker.

(** ** Merging the workers' results *)

Section Merge.
Context {rt : Runtime}.

Lemma merge_future_ok q c tot future :
  table_wf c → future_ok q future →
  merge_future (c, tot) future
  = '(p, rows) ← future; Ok (table_sum c p, (tot + rows)%nat).
Proof.
  intros Hc Hf. unfold merge_future. destruct future as [[p rows]|e]; simpl; [|done].
  by rewrite merge_partial_sum.
Qed.

Lemma merge_from_wf q c tot futures t n :
  table_wf c → Forall (future_ok q) futures →
  for_each merge_future (c, tot) futures = Ok (t, n) → table_wf t.
Proof.
  revert c tot. induction futures as [|f futures IH]; intros c tot Hc Hfs; simpl.
  - by intros [= <- <-].
  - apply Forall_cons in Hfs as [Hf Hfs]. rewrite (merge_future_ok q) by done.
    destruct f as [[p rows]|e]; simpl; [|done].
    apply IH; [|done]. by apply table_wf_sum.
Qed.

(** Merging into a table already built is merging from scratch and
    summing. *)
Lemma merge_from q c tot futures :
  table_wf c → Forall (future_ok q) futures →
  for_each merge_future (c, tot) futures
  = '(t, n) ← merge_completed futures; Ok (table_sum c t, (tot + n)%nat).
Proof.
  unfold merge_completed.
  revert c tot. induction futures as [|f futures IH]; intros c tot Hc Hfs; simpl.
  - rewrite table_sum_empty_r. do 2 f_equal. lia.
  - apply Forall_cons in Hfs as [Hf Hfs].
    rewrite !(merge_future_ok q) by auto using table_wf_empty.
    destruct f as [[p rows]|e]; simpl; [|done]. simpl in Hf.
    rewrite table_sum_empty_l.
    rewrite (IH (table_sum c p)) by auto using table_wf_sum.
    rewrite (IH p) by done.
    destruct (for_each merge_future (∅, 0%nat) futures) as [[t n]|e]; simpl; [|done].
    rewrite table_sum_assoc. do 2 f_equal. lia.
Qed.

(** The completion order does not matter to the merge loop. *)
Lemma merge_from_perm q st futures futures' :
  table_wf st.1 → Forall (future_ok q) futures → futures ≡ₚ futures' →
  for_each merge_future st futures = for_each merge_future st futures'.
Proof.
  intros Hc Hfs Hperm. revert st Hc Hfs.
  induction Hperm as [|f l l' Hp IH|f g l|l l' l'' Hp1 IH1 Hp2 IH2]; intros [c tot] Hc Hfs.
  - done.
  - apply Forall_cons in Hfs as [Hf Hfs]. simpl.
    rewrite (merge_future_ok q) by done.
    destruct f as [[p rows]|e]; simpl; [|done].
    apply IH; [by apply table_wf_sum|done].
  - apply Forall_cons in Hfs as [Hg Hfs]. apply Forall_cons in Hfs as [Hf Hfs]. simpl in *.
    rewrite !(merge_future_ok q c) by done.
    destruct f as [[p rows]|e], g as [[p' rows']|e']; simpl in *.
    + rewrite !merge_partial_sum by auto using table_wf_sum.
      rewrite !table_sum_assoc, (table_sum_comm p p').
      by replace (tot + rows' + rows)%nat with (tot + rows + rows')%nat by lia.
    + done.
    + done.
    + congruence.
  - rewrite IH1 by done. apply IH2; [done|]. by rewrite <- Hp1.
Qed.

Lemma merge_completed_perm q futures futures' :
  Forall (future_ok q) futures → futures ≡ₚ futures' →
  merge_completed futures = merge_completed futures'.
Proof. intros. by apply (merge_from_perm q); [apply table_wf_empty| |]. Qed.

Lemma process_lines_all_ok q (parts : list (list string)) :
  Forall (future_ok q) (process_lines q <$> parts).
Proof. apply Forall_fmap, Forall_forall. intros part _. apply process_lines_ok. Qed.

(** Merging the workers of consecutive partitions, in submission order,
    is processing the partitions joined. *)
Lemma merge_completed_concat q (parts : list (list string)) :
  merge_completed (process_lines q <$> parts) = process_lines q (concat parts).
Proof.
  induction parts as [|part parts IH]; [done|].
  unfold merge_completed in *. rewrite fmap_cons. cbn [for_each concat].
  rewrite (merge_future_ok q) by auto using table_wf_empty, process_lines_ok.
  rewrite process_lines_app.
  pose proof (process_lines_ok q part) as Hok.
  destruct (process_lines q part) as [[t1 n1]|e]; simpl; [|done]. simpl in Hok.
  rewrite table_sum_empty_l.
  rewrite (merge_from q) by auto using process_lines_all_ok.
  unfold merge_completed. rewrite IH. done.
Qed.

(** The file-level loop is the merge loop with a counter of results. *)
Lemma collect_from c tot k futures :
  for_each collect_future (c, tot, k) futures
  = '(t, n) ← for_each merge_future (c, tot) futures; Ok (t, n, (k + length futures)%nat).
Proof.
  revert c tot k. induction futures as [|f futures IH]; intros c tot k; simpl.
  - do 2 f_equal. lia.
  - destruct f as [[p rows]|e]; [|done].
    change (collect_future (c, tot, k) (Ok (p, rows)))
      with (Ok (A:=table * nat * nat) (merge_partial c p, (tot + rows)%nat, S k)).
    change (merge_future (c, tot) (Ok (p, rows)))
      with (Ok (A:=table * nat) (merge_partial c p, (tot + rows)%nat)).
    simpl. rewrite IH.
    destruct (for_each merge_future _ futures) as [[t n]|e]; simpl; [|done].
    do 2 f_equal. lia.
Qed.

Lemma collect_files_merge futures :
  collect_files futures = '(t, n) ← merge_completed futures; Ok (t, n, length futures).
Proof. unfold collect_files. by rewrite collect_from. Qed.

Lemma process_lines_concat_sum (q : query) (parts : list (list string))
    (results : list (table * nat)) :
  process_lines q <$> parts = Ok <$> results →
  process_lines q (concat parts) = Ok (sum_results results).
Proof.
  revert results. induction parts as [|part parts IH]; intros [|[t n] results]; try done.
  rewrite !fmap_cons. intros [= Hp Hps]. cbn [concat].
  rewrite process_lines_app, Hp, (IH _ Hps). simpl.
  by destruct (sum_results results).
Qed.

(** C1. However the lines are split into consecutive partitions and in
    whatever order the workers' results are merged, the merge loops of
    [process_file_parallel] and [aggregate_data_parallel] give what one
    worker gives on the whole input: the same table and row count, or
    the same exception; and when every worker returns, that table is the
    element-wise sum of the private tables. *)
Theorem merge_partition_independent (q : query) (parts : list (list string))
    (completed : list (res (table * nat))) :
  completed ≡ₚ process_lines q <$> parts →
  merge_completed completed = process_lines q (concat parts)
  ∧ collect_files completed
    = ('(t, n) ← process_lines q (concat parts); Ok (t, n, length parts))
  ∧ (∀ results, process_lines q <$> parts = Ok <$> results →
       merge_completed completed = Ok (sum_results results)).
Proof.
  intros Hperm.
  assert (Hm : merge_completed completed = process_lines q (concat parts)).
  { rewrite <- merge_completed_concat. symmetry.
    apply (merge_completed_perm q); [apply process_lines_all_ok|done]. }
  split; [done|]. split.
  - rewrite collect_files_merge, Hm.
    apply Permutation_length in Hperm. rewrite length_fmap in Hperm. by rewrite Hperm.
  - intros results Hres. rewrite Hm. by apply process_lines_concat_sum.
Qed.

End Merge.

(** ** The engine as one pass over the scanned lines *)

Section EngineSpec.
Context {rt : Runtime}.

Lemma chunk_lines_whole {A} (lines : list A) : chunk_lines lines 0 None = lines.
Proof. done. Qed.

(** On a file with one record per line the reader yields the lines, and
    a chunk holds the records of its range of lines. *)
Lemma csv_records_lines lines : one_record_per_line lines → csv_records lines = lines.
Proof.
  unfold csv_records. induction 1 as [|line lines Hline _ IH]; [done|].
  cbn [csv_group]. rewrite Hline. by f_equal.
Qed.

Lemma chunk_records_lines lines chunk_start chunk_size :
  one_record_per_line lines →
  chunk_records lines chunk_start chunk_size = chunk_lines lines chunk_start chunk_size.
Proof.
  intros Hlines. unfold chunk_records, chunk_lines. cbv zeta.
  by rewrite csv_records_lines by (by apply Forall_drop).
Qed.

Lemma process_file_chunk_lines fs filepath q lines chunk_start chunk_size :
  fs !! filepath = Some lines →
  process_file_chunk fs filepath q chunk_start chunk_size
  = process_lines q (chunk_records lines chunk_start chunk_size).
Proof. intros Hfs. unfold process_file_chunk. by rewrite Hfs. Qed.

Lemma process_file_chunk_whole fs filepath q lines :
  fs !! filepath = Some lines →
  process_file_chunk fs filepath q 0 None = process_lines q (csv_records lines).
Proof. intros Hfs. unfold process_file_chunk. by rewrite Hfs. Qed.

(** A whole-file worker on the file of a day, missing or not. *)
Lemma process_file_chunk_day fs q date_str :
  process_file_chunk fs (log_path date_str) q 0 None = process_lines q (file_lines fs date_str).
Proof.
  unfold process_file_chunk, file_lines. by destruct (fs !! log_path date_str).
Qed.

Lemma engine_futures fs q (days : list string) :
  (λ date_str, process_file_chunk fs (log_path date_str) q 0 None) <$> days
  = process_lines q <$> (file_lines fs <$> days).
Proof.
  rewrite <- list_fmap_compose. apply list_fmap_ext. intros i d _. simpl.
  apply process_file_chunk_day.
Qed.

(** The records of all the days of a range are the records of the
    existing files: a missing day has none. *)
Lemma all_days_lines fs (days : list string) :
  concat (file_lines fs <$> days) = concat (file_lines fs <$> existing_files fs days).
Proof.
  unfold existing_files. induction days as [|d days IH]; [done|].
  rewrite fmap_cons. cbn [concat]. destruct (decide (is_Some (fs !! log_path d))) as [Hd|Hd].
  - rewrite filter_cons_True by done. rewrite fmap_cons. cbn [concat]. by rewrite IH.
  - rewrite filter_cons_False by done. rewrite <- IH.
    unfold file_lines at 1. apply eq_None_not_Some in Hd. by rewrite Hd.
Qed.

(** Every day of a range either has a file, and is submitted, or has
    none. *)
Lemma existing_and_missing fs (days : list string) :
  (length (existing_files fs days) + length (filter (λ d, fs !! log_path d = None) days)
   = length days)%nat.
Proof.
  unfold existing_files. induction days as [|d days IH]; [done|].
  destruct (fs !! log_path d) as [lines|] eqn:Hd.
  - rewrite filter_cons_True by (by rewrite Hd).
    rewrite (filter_cons_False (λ d, fs !! log_path d = None)) by (by rewrite Hd).
    simpl. lia.
  - rewrite filter_cons_False by (rewrite Hd; by intros [? ?]).
    rewrite (filter_cons_True (λ d, fs !! log_path d = None)) by done.
    simpl. lia.
Qed.

(** Whatever the scheduler, the engine answers what one pass over the
    scanned lines answers, with the number of existing files. *)
Lemma aggregate_data_parallel_scan sched fs q num_threads :
  aggregate_data_parallel sched fs q num_threads
  = if bool_decide (num_threads `min`
                      Z.of_nat (length (get_date_range (from_dt q) (to_dt q))) ≤ 0)
    then Raise ValueError_max_workers
    else '(t, n) ← process_lines q (scanned_lines fs q);
         Ok (t, n, length (existing_files fs (get_date_range (from_dt q) (to_dt q)))).
Proof.
  unfold aggregate_data_parallel. case_bool_decide; [done|].
  rewrite engine_futures, collect_files_merge.
  set (parts := file_lines fs <$> existing_files fs _).
  rewrite (merge_completed_perm q _ (process_lines q <$> parts)).
  - rewrite merge_completed_concat. fold (scanned_lines fs q).
    rewrite (Permutation_length (as_completed_perm sched _ _)).
    unfold parts. by rewrite !length_fmap.
  - rewrite (as_completed_perm sched). apply process_lines_all_ok.
  - apply as_completed_perm.
Qed.

(** On a file with one record per line, [process_file_parallel] answers
    what one whole-file worker answers, for every positive worker count and
    every scheduler. *)
Lemma process_file_parallel_whole sched fs filepath q num_threads lines :
  fs !! filepath = Some lines → one_record_per_line lines → 1 ≤ num_threads →
  process_file_parallel sched fs filepath q num_threads
  = process_file_chunk fs filepath q 0 None.
Proof.
  intros Hfs Hlines HN. unfold process_file_parallel. rewrite Hfs.
  case_bool_decide as HL0.
  { rewrite (process_file_chunk_whole _ _ _ lines) by done.
    destruct lines; [done|]. simpl in HL0. lia. }
  destruct (bool_decide (_ < _) || bool_decide (num_threads = 1)); [done|].
  rewrite !bool_decide_eq_false_2 by lia.
  rewrite (process_file_chunk_lines _ _ _ lines _ None) by done.
  rewrite chunk_records_lines, chunk_lines_whole by done.
  assert (Hfut : (λ '(chunk_start, chunk_size),
                    process_file_chunk fs filepath q chunk_start (Some chunk_size))
                   <$> chunk_plan (Z.of_nat (length lines)) num_threads
                 = process_lines q
                     <$> ((λ '(s, c), chunk_lines lines s (Some c))
                            <$> chunk_plan (Z.of_nat (length lines)) num_threads)).
  { rewrite <- list_fmap_compose. apply list_fmap_ext. intros i [s c] _. simpl.
    rewrite (process_file_chunk_lines _ _ _ lines) by done.
    by rewrite chunk_records_lines. }
  rewrite Hfut.
  set (parts := (λ '(s, c), chunk_lines lines s (Some c)) <$> chunk_plan _ num_threads).
  rewrite (merge_completed_perm q _ (process_lines q <$> parts)).
  - rewrite merge_completed_concat. f_equal. unfold parts.
    rewrite planned_chunk_lines by lia. rewrite concat_takes. apply take_ge.
    pose proof (plan_chunk_size_ceil (Z.of_nat (length lines)) num_threads HN).
    pose proof (plan_chunk_size_pos (Z.of_nat (length lines)) num_threads ltac:(lia) HN).
    nia.
  - rewrite (as_completed_perm sched). apply process_lines_all_ok.
  - apply as_completed_perm.
Qed.

End EngineSpec.

(** ** Counting the rows a worker matches *)

Section Counting.
Context {rt : Runtime}.

(** What one iteration does to the state when it does not raise. *)
Lemma process_row_cases q t0 n0 line t n :
  process_row q (filter_set (user_filter q)) (filter_set (app_filter q)) (t0, n0) line
    = Ok (t, n) →
  (accepted q line = false ∧ row_key q line = None ∧ t = t0 ∧ n = n0)
  ∨ (accepted q line = true
     ∧ ∃ key metrics, row_key q line = Some key ∧ parse_metrics (csv_fields line) = Ok metrics
                      ∧ t = add_metrics t0 key metrics ∧ n = S n0).
Proof.
  unfold process_row, accepted, row_key.
  destruct (accept q _ _ (csv_fields line)) as [row_dt|].
  - destruct (get_period_start row_dt (granularity q)) as [p|e]; simpl; [|done].
    destruct (parse_metrics _) as [m|e] eqn:Hm; simpl; [|done].
    intros [= <- <-]. right. split; [done|]. by eexists _, _.
  - intros [= <- <-]. by left.
Qed.

Lemma rejected_no_key q line : accepted q line = false → row_key q line = None.
Proof.
  unfold accepted, row_key. by destruct (accept q _ _ (csv_fields line)).
Qed.

Lemma add_metrics_lookup_key t key m :
  table_wf t → length m = 9%nat → is_Some (add_metrics t key m !! key).
Proof. intros. rewrite add_metrics_spec by done. rewrite lookup_insert_eq. by eexists. Qed.

Lemma add_metrics_lookup_is_Some t key m k :
  table_wf t → length m = 9%nat →
  is_Some (add_metrics t key m !! k) ↔ k = key ∨ is_Some (t !! k).
Proof.
  intros. rewrite add_metrics_spec by done.
  destruct (decide (k = key)) as [->|Hne].
  - rewrite lookup_insert_eq. split; [by left|by eexists].
  - rewrite lookup_insert_ne by done. split; [by right|]. by intros [|].
Qed.

(** The state after the rows of a chunk: the counter has grown by the
    number of accepted lines, and the keys of the table are the keys it
    had and the keys of the accepted lines. *)
Lemma rows_invariant q t0 n0 lines t n :
  table_wf t0 →
  for_each (process_row q (filter_set (user_filter q)) (filter_set (app_filter q)))
           (t0, n0) lines = Ok (t, n) →
  n = (n0 + length (filter (λ line, accepted q line) lines))%nat
  ∧ (∀ line, line ∈ lines → accepted q line → ∃ key, row_key q line = Some key)
  ∧ (∀ k, is_Some (t !! k)
          ↔ is_Some (t0 !! k) ∨ ∃ line, line ∈ lines ∧ row_key q line = Some k).
Proof.
  revert t0 n0. induction lines as [|l lines IH]; intros t0 n0 Hwf; simpl.
  - intros [= <- <-]. split; [simpl; lia|]. split.
    + intros line Hin. by apply elem_of_nil in Hin.
    + intros k. split; [by left|]. intros [|(line & Hin & _)]; [done|].
      by apply elem_of_nil in Hin.
  - destruct (process_row q _ _ (t0, n0) l) as [[t1 n1]|e] eqn:Hl; simpl; [|done].
    intros Hrest.
    assert (Hwf1 : table_wf t1) by (by eapply process_row_wf).
    destruct (IH t1 n1 Hwf1 Hrest) as (Hn & Hkeys & Hdom).
    apply process_row_cases in Hl
      as [(Hacc & Hkey & -> & ->)|(Hacc & key & m & Hkey & Hm & -> & ->)].
    + split; [|split].
      * rewrite filter_cons_False by (rewrite Hacc; exact id). done.
      * intros line Hin Ha. apply elem_of_cons in Hin as [->|Hin]; [|by apply Hkeys].
        rewrite Hacc in Ha. done.
      * intros k. rewrite Hdom. split.
        -- intros [?|(line & Hin & Hk)]; [by left|].
           right. exists line. split; [by apply elem_of_cons; right|done].
        -- intros [?|(line & Hin & Hk)]; [by left|].
           apply elem_of_cons in Hin as [->|Hin]; [congruence|].
           right. by exists line.
    + apply parse_metrics_length in Hm.
      split; [|split].
      * rewrite filter_cons_True by (rewrite Hacc; exact I). simpl. lia.
      * intros line Hin Ha. apply elem_of_cons in Hin as [->|Hin]; [|by apply Hkeys].
        by exists key.
      * intros k. rewrite Hdom, add_metrics_lookup_is_Some by done. split.
        -- intros [[->|?]|(line & Hin & Hk)].
           ++ right. exists l. split; [by apply elem_of_cons; left|done].
           ++ by left.
           ++ right. exists line. split; [by apply elem_of_cons; right|done].
        -- intros [?|(line & Hin & Hk)]; [by left; right|].
           apply elem_of_cons in Hin as [->|Hin].
           ++ left; left. congruence.
           ++ right. by exists line.
Qed.

Lemma sum_list_with_zero {X} (ks : list X) : sum_list_with (λ _, 0%nat) ks = 0%nat.
Proof. induction ks as [|k ks IH]; simpl; [done|]. by rewrite IH. Qed.

Lemma sum_list_with_pointwise {X} (f g : X → nat) (ks : list X) :
  (∀ k, f k = g k) → sum_list_with f ks = sum_list_with g ks.
Proof. intros Hfg. induction ks as [|k ks IH]; simpl; [done|]. by rewrite IH, Hfg. Qed.

Lemma sum_list_with_add {X} (f g : X → nat) (ks : list X) :
  sum_list_with (λ k, (f k + g k)%nat) ks = (sum_list_with f ks + sum_list_with g ks)%nat.
Proof. induction ks as [|k ks IH]; simpl; [done|]. rewrite IH. lia. Qed.

(** Among distinct keys, at most one is the key of a given line. *)
Lemma sum_indicator (ks : list (list string)) (o : option (list string)) :
  NoDup ks →
  sum_list_with (λ k, if decide (o = Some k) then 1%nat else 0%nat) ks
  = if decide (Exists (λ k, o = Some k) ks) then 1%nat else 0%nat.
Proof.
  induction 1 as [|k ks Hk Hnd IH]; [done|].
  cbn [sum_list_with].
  - rewrite IH. destruct (decide (o = Some k)) as [->|Hne].
    + rewrite (decide_True (P:=Exists _ (k :: ks))) by (by apply Exists_cons; left).
      rewrite decide_False; [done|].
      intros (k' & Hin & [= <-])%Exists_exists. done.
    + simpl. destruct (decide (Exists (λ k0, o = Some k0) ks)) as [Hex|Hnex].
      * rewrite decide_True; [done|]. by apply Exists_cons; right.
      * rewrite decide_False; [done|]. by intros [?|?]%Exists_cons.
Qed.

Lemma multiplicity_cons q line lines key :
  multiplicity q (line :: lines) key
  = ((if decide (row_key q line = Some key) then 1 else 0) + multiplicity q lines key)%nat.
Proof.
  unfold multiplicity. case_decide.
  - by rewrite filter_cons_True.
  - by rewrite filter_cons_False.
Qed.

(** Over distinct keys that cover the accepted lines, the multiplicities
    add up to the number of accepted lines. *)
Lemma sum_multiplicity q (lines : list string) (ks : list (list string)) :
  NoDup ks →
  (∀ line, line ∈ lines → accepted q line → ∃ key, key ∈ ks ∧ row_key q line = Some key) →
  sum_list_with (multiplicity q lines) ks = length (filter (λ line, accepted q line) lines).
Proof.
  intros Hnd. induction lines as [|l lines IH]; intros Hcover.
  - apply sum_list_with_zero.
  - rewrite (sum_list_with_pointwise _
               (λ k, ((if decide (row_key q l = Some k) then 1 else 0)
                      + multiplicity q lines k)%nat))
      by (intros k; apply multiplicity_cons).
    rewrite sum_list_with_add, sum_indicator by done.
    rewrite IH by (intros line Hin; apply Hcover; by apply elem_of_cons; right).
    destruct (accepted q l) eqn:Hacc.
    + rewrite filter_cons_True by (rewrite Hacc; exact I).
      rewrite decide_True; [done|]. apply Exists_exists.
      apply Hcover; [by apply elem_of_cons; left|rewrite Hacc; exact I].
    + rewrite filter_cons_False by (rewrite Hacc; exact id).
      rewrite decide_False; [done|]. intros (k & _ & Hk)%Exists_exists.
      rewrite rejected_no_key in Hk by done. done.
Qed.

(** The row count a worker returns, and its table's keys. *)
Lemma process_lines_rows q lines t n :
  process_lines q lines = Ok (t, n) →
  n = length (filter (λ line, accepted q line) lines)
  ∧ n = sum_list_with (multiplicity q lines) (table_keys t)
  ∧ (∀ k, is_Some (t !! k) ↔ ∃ line, line ∈ lines ∧ row_key q line = Some k).
Proof.
  intros Hp. unfold process_lines in Hp.
  apply rows_invariant in Hp as (Hn & Hkeys & Hdom); [|apply table_wf_empty].
  assert (Hdom' : ∀ k, is_Some (t !! k) ↔ ∃ line, line ∈ lines ∧ row_key q line = Some k).
  { intros k. rewrite Hdom. split; [|by right]. intros [Hk|?]; [|done].
    rewrite lookup_empty in Hk. by destruct Hk. }
  split; [done|]. split; [|done].
  rewrite sum_multiplicity; [done|apply NoDup_fst_map_to_list|].
  intros line Hin Hacc. destruct (Hkeys line Hin Hacc) as [key Hkey].
  exists key. split; [|done].
  assert (is_Some (t !! key)) as [v Hv] by (apply Hdom'; by exists line).
  unfold table_keys. apply list_elem_of_fmap. exists (key, v). split; [done|].
  by apply elem_of_map_to_list.
Qed.

(** C9. When the engine returns, its row count is the number of scanned
    lines that pass the field-count, user, app, timestamp and window tests,
    not the number of lines scanned, and it is the sum over the keys of the
    final table of the number of lines aggregated under each key. *)
Theorem rows_matched_post_filter (sched : scheduler) (fs : filesystem) (q : query)
    (num_threads : Z) (t : table) (rows files : nat) :
  aggregate_data_parallel sched fs q num_threads = Ok (t, rows, files) →
  rows = length (filter (λ line, accepted q line) (scanned_lines fs q))
  ∧ rows = sum_list_with (multiplicity q (scanned_lines fs q)) (table_keys t)
  ∧ (rows ≤ length (scanned_lines fs q))%nat.
Proof.
  rewrite aggregate_data_parallel_scan. case_bool_decide; [done|].
  destruct (process_lines q (scanned_lines fs q)) as [[t' n']|e] eqn:Hp; simpl; [|done].
  intros [= <- <- <-].
  apply process_lines_rows in Hp as (Hn & Hsum & _).
  split; [done|]. split; [done|].
  rewrite Hn. apply length_filter.
Qed.

End Counting.

(** ** Missing files *)

Section MissingFiles.
Context {rt : Runtime}.

Lemma filter_drops_one {X} (P : X → Prop) `{∀ x, Decision (P x)} (l : list X) (x : X) :
  x ∈ l → ¬ P x → (length (filter P l) < length l)%nat.
Proof.
  intros Hin HnP. induction l as [|y l IH]; [by apply elem_of_nil in Hin|].
  apply elem_of_cons in Hin as [<-|Hin].
  - rewrite filter_cons_False by done. pose proof (length_filter P l). simpl. lia.
  - specialize (IH Hin). destruct (decide (P y)).
    + rewrite filter_cons_True by done. simpl. lia.
    + rewrite filter_cons_False by done. simpl. lia.
Qed.

Lemma filter_none {X} (P : X → Prop) `{∀ x, Decision (P x)} (l : list X) :
  Forall (λ x, ¬ P x) l → filter P l = [].
Proof.
  induction 1 as [|x l Hx _ IH]; [done|]. by rewrite filter_cons_False.
Qed.

(** C7. A day of the queried range whose file does not exist: a worker
    given its path returns the empty table and zero rows without raising
    (so does the reader of the sequential script); the day is not among the
    files the engine submits and counts, which are exactly the days of the
    range that have a file; and the engine answers what one pass over the
    records of all the days answers, a missing day having none, with the
    number of days less the missing ones as [files_processed]. *)
Theorem missing_file_tolerance (sched : scheduler) (fs : filesystem) (q : query)
    (num_threads : Z) (date_str : string) :
  date_str ∈ get_date_range (from_dt q) (to_dt q) →
  fs !! log_path date_str = None →
  1 ≤ num_threads →
  let date_files := get_date_range (from_dt q) (to_dt q) in
  process_file_chunk fs (log_path date_str) q 0 None = Ok (∅, 0%nat)
  ∧ read_log_file fs (log_path date_str) (from_dt q) (to_dt q) (user_filter q) (app_filter q)
    = Ok []
  ∧ (date_str ∉ existing_files fs date_files)
  ∧ (length (existing_files fs date_files) < length date_files)%nat
  ∧ Forall (λ d, is_Some (fs !! log_path d)) (existing_files fs date_files)
  ∧ aggregate_data_parallel sched fs q num_threads
    = ('(t, n) ← process_lines q (scanned_lines fs q);
       Ok (t, n, length (existing_files fs date_files)))
  ∧ (∀ d, d ∈ existing_files fs date_files ↔ d ∈ date_files ∧ is_Some (fs !! log_path d))
  ∧ (length (existing_files fs date_files)
     = length date_files - length (filter (λ d, fs !! log_path d = None) date_files))%nat
  ∧ aggregate_data_parallel sched fs q num_threads
    = ('(t, n) ← process_lines q (concat (file_lines fs <$> date_files));
       Ok (t, n, (length date_files
                  - length (filter (λ d, fs !! log_path d = None) date_files))%nat)).
Proof.
  intros Hin Hmiss HN. cbv zeta.
  assert (Hnot : ¬ is_Some (fs !! log_path date_str)) by (rewrite Hmiss; by intros [? ?]).
  assert (Hcount : (length (existing_files fs (get_date_range (from_dt q) (to_dt q)))
                    = length (get_date_range (from_dt q) (to_dt q))
                      - length (filter (λ d, fs !! log_path d = None)
                                       (get_date_range (from_dt q) (to_dt q))))%nat).
  { pose proof (existing_and_missing fs (get_date_range (from_dt q) (to_dt q))). lia. }
  assert (Hrun : aggregate_data_parallel sched fs q num_threads
                 = ('(t, n) ← process_lines q (scanned_lines fs q);
                    Ok (t, n, length (existing_files fs
                                        (get_date_range (from_dt q) (to_dt q)))))).
  { rewrite aggregate_data_parallel_scan.
    rewrite bool_decide_eq_false_2; [done|].
    assert (0 < length (get_date_range (from_dt q) (to_dt q)))%nat.
    { destruct (get_date_range _ _); [by apply elem_of_nil in Hin|simpl; lia]. }
    lia. }
  split; [unfold process_file_chunk; by rewrite Hmiss|].
  split; [unfold read_log_file; by rewrite Hmiss|].
  split; [unfold existing_files; by intros [? _]%list_elem_of_filter|].
  split; [by apply (filter_drops_one _ _ date_str)|].
  split; [apply Forall_forall; unfold existing_files; by intros d [? _]%list_elem_of_filter|].
  split; [exact Hrun|].
  split.
  { intros d. unfold existing_files. rewrite list_elem_of_filter. tauto. }
  split; [exact Hcount|].
  rewrite Hrun, <- Hcount. unfold scanned_lines. by rewrite <- all_days_lines.
Qed.

End MissingFiles.

(** ** Empty filters *)

Section EmptyFilters.
Context {rt : Runtime}.

(** C10. An empty filter list is turned into "no filter" before any
    membership test: it excludes no value, and the worker, the engine and
    the sequential reader do with an empty user or app filter what they
    do with none. *)
Theorem empty_filter_is_no_filter (sched : scheduler) (fs : filesystem) (q : query)
    (num_threads : Z) (filepath : string) (chunk_start : Z) (chunk_size : option Z)
    (other : option (list string)) (value : string) (row : list string) :
  filter_set (Some []) = filter_set None
  ∧ filtered_out (filter_set (Some [])) value = false
  ∧ accept q (filter_set (Some [])) (filter_set other) row
    = accept q (filter_set None) (filter_set other) row
  ∧ accept q (filter_set other) (filter_set (Some [])) row
    = accept q (filter_set other) (filter_set None) row
  ∧ process_file_chunk fs filepath (with_filters q (Some []) other) chunk_start chunk_size
    = process_file_chunk fs filepath (with_filters q None other) chunk_start chunk_size
  ∧ process_file_chunk fs filepath (with_filters q other (Some [])) chunk_start chunk_size
    = process_file_chunk fs filepath (with_filters q other None) chunk_start chunk_size
  ∧ aggregate_data_parallel sched fs (with_filters q (Some []) (Some [])) num_threads
    = aggregate_data_parallel sched fs (with_filters q None None) num_threads
  ∧ read_log_file fs filepath (from_dt q) (to_dt q) (Some []) (Some [])
    = read_log_file fs filepath (from_dt q) (to_dt q) None None.
Proof. repeat split; reflexivity. Qed.

End EmptyFilters.

(** ** When a worker raises *)

Section Raising.
Context {rt : Runtime}.

Lemma raises_Raise {X} (e : exn) : raises (Raise e : res X).
Proof. by exists e. Qed.

Lemma not_raises_Ok {X} (a : X) : ¬ raises (Ok a).
Proof. by intros [e ?]. Qed.

Lemma not_raises_inv {X} (m : res X) : ¬ raises m → ∃ a, m = Ok a.
Proof. destruct m as [a|e]; [by exists a|]. intros []. apply raises_Raise. Qed.

Lemma mapM_res_raises {X Y} (f : X → res Y) (l : list X) :
  raises (mapM f l) ↔ Exists (λ x, raises (f x)) l.
Proof.
  induction l as [|x l IH]; simpl.
  - split; [by intros [e ?]|by intros ?%Exists_nil].
  - rewrite Exists_cons, <- IH. destruct (f x) as [y|e]; simpl.
    + destruct (mapM f l) as [k|e]; simpl.
      * split; [by intros [e ?]|]. by intros [[e ?]|[e ?]].
      * split; [intros _; right|intros _]; apply raises_Raise.
    + split; [intros _; left|intros _]; apply raises_Raise.
Qed.

Lemma parse_metrics_raises row : raises (parse_metrics row) ↔ malformed_metric row.
Proof.
  unfold parse_metrics, malformed_metric. rewrite mapM_res_raises.
  split; intros H; (eapply Exists_impl; [exact H|]); intros i; simpl;
    destruct (int_of_str (row !!! i)); try done.
  - by intros [e ?].
  - intros _. apply raises_Raise.
Qed.

Lemma process_row_raises q st line :
  raises (process_row q (filter_set (user_filter q)) (filter_set (app_filter q)) st line)
  ↔ row_raises q line.
Proof.
  unfold process_row, row_raises, accepted, valid_granularity. destruct st as [t n].
  destruct (accept q _ _ (csv_fields line)) as [row_dt|].
  - destruct (String.eqb (granularity q) "30m" || String.eqb (granularity q) "1day") eqn:Hg.
    + destruct (get_period_start_valid row_dt _ Hg) as [p ->]. simpl.
      rewrite <- parse_metrics_raises.
      destruct (parse_metrics _) as [m|e]; simpl.
      * split; [by intros [e ?]|]. by intros [_ [?|[e ?]]].
      * split; [|intros _; apply raises_Raise]. intros _. split; [done|].
        right. apply raises_Raise.
    + rewrite get_period_start_invalid by done. simpl.
      split; [|intros _; apply raises_Raise]. intros _. split; [done|by left].
  - split; [by intros [e ?]|]. by intros [[] _].
Qed.

Lemma rows_raises q st lines :
  raises (for_each (process_row q (filter_set (user_filter q)) (filter_set (app_filter q)))
                   st lines)
  ↔ Exists (row_raises q) lines.
Proof.
  revert st. induction lines as [|l lines IH]; intros st; simpl.
  - split; [by intros [e ?]|by intros ?%Exists_nil].
  - rewrite Exists_cons, <- (process_row_raises q st l).
    destruct (process_row q _ _ st l) as [st'|e]; simpl.
    + rewrite IH. split; [by right|]. by intros [[e ?]|?].
    + split; [intros _; left|intros _]; apply raises_Raise.
Qed.

Lemma process_lines_raises q lines :
  raises (process_lines q lines) ↔ Exists (row_raises q) lines.
Proof. apply rows_raises. Qed.

Lemma row_key_accepted q line key : row_key q line = Some key → accepted q line.
Proof.
  unfold row_key, accepted. by destruct (accept q _ _ (csv_fields line)).
Qed.

Lemma row_key_shape q line key :
  row_key q line = Some key →
  ∃ period_str user app, key = period_str :: dim_values (dimensions q) user app.
Proof.
  unfold row_key. destruct (accept q _ _ (csv_fields line)) as [row_dt|]; [|done].
  destruct (get_period_start row_dt (granularity q)) as [p|e]; [|done].
  intros [= <-]. by eexists _, _, _.
Qed.

(** The engine over a non-empty date range and at least one worker. *)
Lemma aggregate_data_parallel_run sched fs q num_threads :
  1 ≤ num_threads → get_date_range (from_dt q) (to_dt q) ≠ [] →
  aggregate_data_parallel sched fs q num_threads
  = ('(t, n) ← process_lines q (scanned_lines fs q);
     Ok (t, n, length (existing_files fs (get_date_range (from_dt q) (to_dt q))))).
Proof.
  intros HN Hne. rewrite aggregate_data_parallel_scan.
  rewrite bool_decide_eq_false_2; [done|].
  destruct (get_date_range _ _); [done|simpl; lia].
Qed.

(** C6, as the code has it.  Over a non-empty date range and with at
    least one worker: an invalid granularity makes the engine raise, and
    return no table, exactly when some scanned line passes the filters;
    when none does, the engine returns the empty table and zero rows.  An
    empty dimension list is not rejected: with a valid granularity and
    well-formed metrics the engine returns a table whose keys are the
    period string alone. *)
Theorem caller_errors (sched : scheduler) (fs : filesystem) (q : query) (num_threads : Z) :
  1 ≤ num_threads → get_date_range (from_dt q) (to_dt q) ≠ [] →
  let files := length (existing_files fs (get_date_range (from_dt q) (to_dt q))) in
  (valid_granularity q = false →
     (Exists (λ line, accepted q line) (scanned_lines fs q) →
        aggregate_data_parallel sched fs q num_threads = Raise ValueError_granularity)
     ∧ (Forall (λ line, ¬ accepted q line) (scanned_lines fs q) →
        aggregate_data_parallel sched fs q num_threads = Ok (∅, 0%nat, files)))
  ∧ (dimensions q = [] → valid_granularity q = true →
     Forall (λ line, accepted q line → ¬ malformed_metric (csv_fields line))
            (scanned_lines fs q) →
     ∃ t n, aggregate_data_parallel sched fs q num_threads = Ok (t, n, files)
            ∧ ∀ key, is_Some (t !! key) → ∃ period_str, key = [period_str]).
Proof.
  intros HN Hne. cbv zeta. rewrite aggregate_data_parallel_run by done.
  split.
  - intros Hg. split.
    + intros Hex.
      assert (Hr : raises (process_lines q (scanned_lines fs q))).
      { apply process_lines_raises. eapply Exists_impl; [exact Hex|].
        intros line Hacc. split; [done|by left]. }
      destruct Hr as [e Hr]. rewrite Hr. simpl.
      apply rows_exn in Hr. subst e. unfold query_exn. by rewrite Hg.
    + intros Hall.
      assert (Hnr : ¬ raises (process_lines q (scanned_lines fs q))).
      { rewrite process_lines_raises. intros (line & Hin & Hacc & _)%Exists_exists.
        by apply (proj1 (Forall_forall _ _) Hall line Hin). }
      apply not_raises_inv in Hnr as [[t n] Hp]. rewrite Hp. simpl.
      apply process_lines_rows in Hp as (Hn & _ & Hdom).
      assert (Ht : t = ∅).
      { apply map_empty. intros k. apply eq_None_not_Some.
        intros (line & Hin & Hk)%Hdom. apply row_key_accepted in Hk.
        by apply (proj1 (Forall_forall _ _) Hall line Hin). }
      assert (Hn0 : n = 0%nat).
      { rewrite Hn. by rewrite filter_none. }
      by rewrite Ht, Hn0.
  - intros Hdim Hg Hall.
    assert (Hnr : ¬ raises (process_lines q (scanned_lines fs q))).
    { rewrite process_lines_raises.
      intros (line & Hin & Hacc & [Hbad|Hbad])%Exists_exists; [congruence|].
      by apply (proj1 (Forall_forall _ _) Hall line Hin). }
    apply not_raises_inv in Hnr as [[t n] Hp]. rewrite Hp. simpl.
    exists t, n. split; [done|].
    apply process_lines_rows in Hp as (_ & _ & Hdom).
    intros key (line & _ & Hk)%Hdom.
    apply row_key_shape in Hk as (p & u & a & ->). rewrite Hdim. by exists p.
Qed.

End Raising.

(** ** Rejected lines and malformed metrics *)

Section Taxonomy.
Context {rt : Runtime}.

Lemma accept_short q us aps row : (length row < 12)%nat → accept q us aps row = None.
Proof. intros Hlen. unfold accept. by rewrite bool_decide_eq_true_2. Qed.

Lemma accept_bad_timestamp q us aps row :
  parse_datetime (row !!! 0%nat) = None → accept q us aps row = None.
Proof.
  intros Hts. unfold accept. rewrite Hts.
  case_bool_decide; [done|]. by repeat destruct (filtered_out _ _).
Qed.

Lemma process_row_rejected q us aps st line :
  accept q us aps (csv_fields line) = None → process_row q us aps st line = Ok st.
Proof. intros Hacc. unfold process_row. destruct st. by rewrite Hacc. Qed.

Lemma accepted_false q line :
  accepted q line = false
  → accept q (filter_set (user_filter q)) (filter_set (app_filter q)) (csv_fields line) = None.
Proof. unfold accepted. by destruct (accept q _ _ _). Qed.

(** C4, as the code has it.  In the worker a line is dropped silently, the
    state unchanged and nothing raised, when it has fewer than 12 fields,
    when its timestamp does not parse, and more generally whenever it fails
    one of the tests that precede the aggregation, whatever its metric
    fields hold.  A line that passes those tests and has a malformed metric
    field makes the worker raise, and so does any pass over records that
    include it and any call of the worker that reads it.  The reader of the sequential script parses the
    metrics first: there every line of at least 12 fields with a malformed
    metric raises. *)
Theorem parse_error_taxonomy (q : query) (st : table * nat) (line : string) :
  let row := csv_fields line in
  let worker := process_row q (filter_set (user_filter q)) (filter_set (app_filter q)) in
  ((length row < 12)%nat → worker st line = Ok st)
  ∧ (parse_datetime (row !!! 0%nat) = None → worker st line = Ok st)
  ∧ (accepted q line = false → worker st line = Ok st)
  ∧ (accepted q line = true → malformed_metric row → raises (worker st line))
  ∧ (∀ lines, line ∈ lines → accepted q line = true → malformed_metric row →
       raises (process_lines q lines))
  ∧ (∀ fs filepath chunk_start chunk_size lines,
       fs !! filepath = Some lines → line ∈ chunk_records lines chunk_start chunk_size →
       accepted q line = true → malformed_metric row →
       raises (process_file_chunk fs filepath q chunk_start chunk_size))
  ∧ (∀ user_set app_set yielded, (12 ≤ length row)%nat → malformed_metric row →
       raises (read_row (from_dt q) (to_dt q) user_set app_set yielded line)).
Proof.
  cbv zeta.
  assert (Hchunk : ∀ lines, line ∈ lines → accepted q line = true →
            malformed_metric (csv_fields line) → raises (process_lines q lines)).
  { intros lines Hin Hacc Hbad. apply process_lines_raises, Exists_exists.
    exists line. split; [done|]. split; [by rewrite Hacc|by right]. }
  split; [intros; by apply process_row_rejected, accept_short|].
  split; [intros; by apply process_row_rejected, accept_bad_timestamp|].
  split; [intros; by apply process_row_rejected, accepted_false|].
  split.
  { intros Hacc Hbad. apply process_row_raises. split; [by rewrite Hacc|by right]. }
  split; [exact Hchunk|]. split.
  - intros fs filepath cs sz lines Hfs Hin Hacc Hbad.
    rewrite (process_file_chunk_lines _ _ _ lines) by done. by apply Hchunk.
  - intros us aps yielded Hlen Hbad. unfold read_row.
    rewrite bool_decide_eq_false_2 by lia.
    apply parse_metrics_raises in Hbad as [e Hbad].
    unfold parse_row. rewrite Hbad. simpl. apply raises_Raise.
Qed.

End Taxonomy.

(** C4 as stated fails both ways.  A record of a user outside the filter
    with a non-integer metric is dropped by the worker without any error;
    so is, by the worker, a record with an unparseable timestamp and a
    non-integer metric, which the reader of the sequential script does not
    drop: it raises on it. *)
Lemma parse_error_taxonomy_counterexample :
  malformed_metric (csv_fields ex_line_filtered_bad_metric)
  ∧ process_lines ex_query [ex_line_filtered_bad_metric] = Ok (∅, 0%nat)
  ∧ malformed_metric (csv_fields ex_line_bad_timestamp_bad_metric)
  ∧ parse_datetime (csv_fields ex_line_bad_timestamp_bad_metric !!! 0%nat) = None
  ∧ process_file_chunk ex_fs_bad "csv_logs/2025-01-01.log.csv" ex_query 0 None = Ok (∅, 0%nat)
  ∧ read_log_file ex_fs_bad "csv_logs/2025-01-01.log.csv" (from_dt ex_query) (to_dt ex_query)
                  (user_filter ex_query) (app_filter ex_query) = Raise ValueError_int.
Proof.
  split; [apply Exists_cons; left; by vm_compute|].
  split; [by vm_compute|].
  split; [apply Exists_cons; left; by vm_compute|].
  repeat split; by vm_compute.
Qed.

(** C6 as stated fails on both counts.  With the unknown granularity "1h"
    and a file none of whose records passes the user filter, the engine
    returns an empty table; with no dimension selected it returns the
    table keyed by the period alone. *)
Lemma caller_errors_counterexample :
  valid_granularity ex_query_1h = false
  ∧ aggregate_data_parallel fifo ex_fs_others ex_query_1h 4 = Ok (∅, 0%nat, 1%nat)
  ∧ dimensions ex_query_nodim = []
  ∧ aggregate_data_parallel fifo ex_fs ex_query_nodim 4
    = Ok ({[ ["2025-01-01 00:00:00"] := [3; 3; 3; 3; 3; 3; 3; 3; 3] ]}, 2%nat, 2%nat).
Proof. repeat split; by vm_compute. Qed.

(** ** The order of keys *)

Lemma code_points_inj s t : code_points s = code_points t → s = t.
Proof.
  unfold code_points. intros H.
  apply (f_equal (fmap Ascii.ascii_of_nat)) in H.
  rewrite <- !list_fmap_compose in H.
  assert (Hid : ∀ l : list Ascii.ascii, (Ascii.ascii_of_nat ∘ Ascii.nat_of_ascii) <$> l = l).
  { intros l. induction l as [|a l IH]; [done|].
    rewrite fmap_cons. f_equal; [apply Ascii.ascii_nat_embedding | exact IH]. }
  rewrite !Hid in H.
  rewrite <- (String.string_of_list_ascii_of_string s), <- (String.string_of_list_ascii_of_string t).
  by rewrite H.
Qed.

#[global] Instance string_lexico_po : StrictOrder (@lexico string _).
Proof.
  split.
  - intros s Hs. by apply (irreflexivity (@lexico (list nat) _) (code_points s)).
  - intros s t u Hst Htu. unfold lexico, string_lexico in *. by etrans.
Qed.

Lemma nat_lexico_irrefl (x : nat) : ¬ lexico x x.
Proof. apply (irreflexivity (@lexico nat _)). Qed.

Lemma str_cmp_Lt s t : str_cmp s t = Lt ↔ lexico s t.
Proof.
  unfold str_cmp. apply list_cmp_Lt;
    auto using Nat.compare_lt_iff, Nat.compare_eq_iff, Nat.compare_gt_iff, nat_lexico_irrefl.
Qed.

Lemma str_cmp_Gt s t : str_cmp s t = Gt ↔ lexico t s.
Proof.
  unfold str_cmp. apply list_cmp_Gt;
    auto using Nat.compare_lt_iff, Nat.compare_eq_iff, Nat.compare_gt_iff, nat_lexico_irrefl.
Qed.

Lemma str_cmp_Eq s t : str_cmp s t = Eq ↔ s = t.
Proof.
  unfold str_cmp. rewrite list_cmp_Eq;
    auto using Nat.compare_lt_iff, Nat.compare_eq_iff, Nat.compare_gt_iff, nat_lexico_irrefl.
  split; [apply code_points_inj|by intros ->].
Qed.

Lemma string_lexico_irrefl (s : string) : ¬ lexico s s.
Proof. apply (irreflexivity (@lexico string _)). Qed.

Lemma key_cmp_Lt k1 k2 : key_cmp k1 k2 = Lt ↔ lexico k1 k2.
Proof.
  apply list_cmp_Lt; auto using str_cmp_Lt, str_cmp_Eq, str_cmp_Gt, string_lexico_irrefl.
Qed.

Lemma key_cmp_Eq k1 k2 : key_cmp k1 k2 = Eq ↔ k1 = k2.
Proof.
  apply list_cmp_Eq; auto using str_cmp_Lt, str_cmp_Eq, str_cmp_Gt, string_lexico_irrefl.
Qed.

Lemma key_cmp_Gt k1 k2 : key_cmp k1 k2 = Gt ↔ lexico k2 k1.
Proof.
  apply list_cmp_Gt; auto using str_cmp_Lt, str_cmp_Eq, str_cmp_Gt, string_lexico_irrefl.
Qed.

(** [k1 <= k2] is: equal, or before in the lexicographic order. *)
Lemma key_le_lexico k1 k2 : key_le k1 k2 ↔ k1 = k2 ∨ lexico k1 k2.
Proof.
  unfold key_le. rewrite <- key_cmp_Eq, <- key_cmp_Lt.
  destruct (key_cmp k1 k2); split; try done; try (by intros [|]); auto.
Qed.

#[global] Instance key_le_total : Total key_le.
Proof.
  intros k1 k2. unfold key_le.
  destruct (key_cmp k1 k2) eqn:H12; [by left|by left|].
  right. intros H21. apply key_cmp_Gt in H12, H21.
  apply (irreflexivity (@lexico (list string) _) k1). by etrans.
Qed.

#[global] Instance key_le_trans : Transitive key_le.
Proof.
  intros k1 k2 k3. rewrite !key_le_lexico.
  intros [->|H12] [->|H23]; [by left|by right|by right|].
  right. by etrans.
Qed.

#[global] Instance key_le_antisymm : AntiSymm (=) key_le.
Proof.
  intros k1 k2. rewrite !key_le_lexico. intros [->|H12] [Heq|H21]; try done.
  exfalso. apply (irreflexivity (@lexico (list string) _) k1). by etrans.
Qed.

Lemma sorted_Permutation ks : sorted ks ≡ₚ ks.
Proof. apply merge_sort_Permutation. Qed.

Lemma sorted_Sorted ks : Sorted key_le (sorted ks).
Proof. apply (Sorted_merge_sort key_le). Qed.

(** Distinct keys come out strictly ascending. *)
Lemma strictly_sorted (ks : list (list string)) :
  StronglySorted key_le ks → NoDup ks → StronglySorted lexico ks.
Proof.
  induction 1 as [|k ks Hs IH Hall]; intros Hnd; [constructor|].
  apply NoDup_cons in Hnd as [Hk Hnd]. constructor; [by apply IH|].
  apply Forall_forall. intros k' Hin.
  pose proof (proj1 (Forall_forall _ _) Hall k' Hin) as Hle.
  apply key_le_lexico in Hle as [->|?]; [by destruct Hk|done].
Qed.

(** The sorted sequence depends on the set of keys only, not on the order
    in which the dict lists them. *)
Lemma sorted_listing ks ks' : ks ≡ₚ ks' → sorted ks = sorted ks'.
Proof.
  intros Hperm. apply (Sorted_unique key_le); [apply sorted_Sorted..|].
  by rewrite !sorted_Permutation.
Qed.

Lemma table_keys_NoDup (t : table) : NoDup (table_keys t).
Proof. apply NoDup_fst_map_to_list. Qed.

Lemma elem_of_table_keys (t : table) key : key ∈ table_keys t ↔ is_Some (t !! key).
Proof.
  unfold table_keys. rewrite list_elem_of_fmap. split.
  - intros ([k v] & -> & Hin). apply elem_of_map_to_list in Hin. by exists v.
  - intros [v Hv]. exists (key, v). split; [done|]. by apply elem_of_map_to_list.
Qed.

Section Emitter.
Context {rt : Runtime}.

(** C8. For the table the engine returns: the rows written after the
    header are one per key, the keys strictly ascending in the
    lexicographic order of tuples of strings (period string, then user if
    selected, then app if selected); each row is the fields of its key
    followed by the nine metric sums of the key in index order, under the
    header columns metric_1 to metric_9; the rows are the same whatever
    the order in which the table lists its keys, and the same for every
    scheduler and worker count for which the engine returns. *)
Theorem emitter_order_shape (sched : scheduler) (fs : filesystem) (q : query)
    (num_threads : Z) (t : table) (n files : nat) :
  aggregate_data_parallel sched fs q num_threads = Ok (t, n, files) →
  let keys := sorted (table_keys t) in
  write_results t (dimensions q)
    = (Str <$> header (dimensions q))
        :: ((λ key, (Str <$> key) ++ (Int <$> t !!! key)) <$> keys)
  ∧ header (dimensions q)
    = "timestamp" :: dim_values (dimensions q) "user" "app"
        ++ ["metric_1"; "metric_2"; "metric_3"; "metric_4"; "metric_5";
            "metric_6"; "metric_7"; "metric_8"; "metric_9"]
  ∧ keys ≡ₚ table_keys t
  ∧ (∀ key, key ∈ keys ↔ is_Some (t !! key))
  ∧ StronglySorted lexico keys
  ∧ Forall (λ key, ∃ period_str user app metrics,
              key = period_str :: dim_values (dimensions q) user app
              ∧ t !! key = Some metrics ∧ length metrics = 9%nat
              ∧ output_row t key = (Str <$> key) ++ (Int <$> metrics)) keys
  ∧ (∀ listing, listing ≡ₚ table_keys t →
       rows_of_keys t listing = rows_of_keys t (table_keys t))
  ∧ (∀ sched' num_threads' t' n' files',
       aggregate_data_parallel sched' fs q num_threads' = Ok (t', n', files') →
       write_results t' (dimensions q) = write_results t (dimensions q)).
Proof.
  intros Hrun. cbv zeta.
  assert (Hscan : process_lines q (scanned_lines fs q) = Ok (t, n)).
  { rewrite aggregate_data_parallel_scan in Hrun. case_bool_decide; [done|].
    destruct (process_lines q (scanned_lines fs q)) as [[t' n']|e]; simpl in Hrun; [|done].
    by injection Hrun as -> -> _. }
  assert (Hwf : table_wf t).
  { pose proof (process_lines_ok q (scanned_lines fs q)) as Hok. by rewrite Hscan in Hok. }
  apply process_lines_rows in Hscan as Hrows. destruct Hrows as (_ & _ & Hdom).
  split; [done|].
  split; [unfold header, dim_values; by do 2 case_bool_decide|].
  split; [apply sorted_Permutation|].
  split; [intros key; by rewrite sorted_Permutation, elem_of_table_keys|].
  split.
  { apply strictly_sorted.
    - apply Sorted_StronglySorted; [apply _|apply sorted_Sorted].
    - rewrite sorted_Permutation. apply table_keys_NoDup. }
  split.
  { apply Forall_forall. intros key Hin.
    rewrite sorted_Permutation in Hin. apply elem_of_table_keys in Hin as [metrics Hm].
    assert (is_Some (t !! key)) as (line & _ & Hk)%Hdom by (by exists metrics).
    apply row_key_shape in Hk as (p & u & a & ->).
    exists p, u, a, metrics. split; [done|]. split; [done|].
    split; [by apply (Hwf _ _ Hm)|].
    unfold output_row. by rewrite (lookup_total_correct _ _ _ Hm). }
  split.
  { intros listing Hperm. unfold rows_of_keys. by rewrite (sorted_listing _ _ Hperm). }
  intros sched' N' t' n' files' Hrun'.
  rewrite aggregate_data_parallel_scan in Hrun'. case_bool_decide; [done|].
  rewrite Hscan in Hrun'. simpl in Hrun'. by injection Hrun' as <- _ _.
Qed.

End Emitter.

(** * Worked instances

    Each theorem above that carries hypotheses, applied to the example
    data with the fixed-width runtime. *)

(** The spec's end-to-end example: one output row, metrics all 3. *)
Example end_to_end :
  (match aggregate_data_parallel lifo ex_fs ex_query 4 with
   | Ok (t, _, _) => write_results t (dimensions ex_query)
   | Raise _ => []
   end)
  = [ Str <$> ["timestamp"; "user"; "metric_1"; "metric_2"; "metric_3"; "metric_4";
               "metric_5"; "metric_6"; "metric_7"; "metric_8"; "metric_9"];
      [Str "2025-01-01 00:00:00"; Str "u1";
       Int 3; Int 3; Int 3; Int 3; Int 3; Int 3; Int 3; Int 3; Int 3] ].
Proof. by vm_compute. Qed.

(** A record that passes the filters with a metric that is no integer:
    the worker raises. *)
Example malformed_metric_raises :
  process_lines ex_query
    [ "2025-01-01 00:47:00,u1,a1,1,1,1,1,1,1,1,1,1";
      "2025-01-01 09:10:00,u1,a1,x,5,5,5,5,5,5,5,5" ] = Raise ValueError_int.
Proof. by vm_compute. Qed.

(** Filter composition: user filter {u1} and app filter {a1, a2}. *)
Example filter_composition :
  let q := with_filters ex_query (Some ["u1"]) (Some ["a1"; "a2"]) in
  accepted q "2025-01-01 00:47:00,u1,a1,1,1,1,1,1,1,1,1,1" = true
  ∧ accepted q "2025-01-01 00:47:00,u1,a3,1,1,1,1,1,1,1,1,1" = false
  ∧ accepted q "2025-01-01 00:47:00,u2,a1,1,1,1,1,1,1,1,1,1" = false.
Proof. repeat split; by vm_compute. Qed.

(** The window of [ex_query] is [2025-01-01 00:00:00, 2025-01-03 00:00:00). *)
Example window_ends :
  accepted ex_query "2025-01-01 00:00:00,u1,a1,1,1,1,1,1,1,1,1,1" = true
  ∧ accepted ex_query "2025-01-02 23:59:59,u1,a1,1,1,1,1,1,1,1,1,1" = true
  ∧ accepted ex_query "2025-01-03 00:00:00,u1,a1,1,1,1,1,1,1,1,1,1" = false
  ∧ accepted ex_query "2024-12-31 23:59:59,u1,a1,1,1,1,1,1,1,1,1,1" = false.
Proof. repeat split; by vm_compute. Qed.

(** Four workers on a file below the threshold, and the two schedulers:
    the same answer as one worker. *)
Example parallel_small_file :
  process_file_parallel lifo ex_fs "csv_logs/2025-01-01.log.csv" ex_query 4
  = process_file_chunk ex_fs "csv_logs/2025-01-01.log.csv" ex_query 0 None
  ∧ aggregate_data_parallel lifo ex_fs ex_query 4
    = aggregate_data_parallel fifo ex_fs ex_query 1.
Proof. split; reflexivity. Qed.

(** The spec's bucketing example. *)
Example bucketing :
  (strftime <$> get_period_start (ts "2025-01-01 00:47:00") "30m") = Ok "2025-01-01 00:30:00"
  ∧ (strftime <$> get_period_start (ts "2025-01-01 00:47:00") "1day") = Ok "2025-01-01 00:00:00"
  ∧ get_period_start (ts "2025-01-01 00:47:00") "1h" = Raise ValueError_granularity.
Proof. repeat split; by vm_compute. Qed.

Lemma merge_partition_independent_witness :
  reverse (process_lines ex_query <$> ex_parts) ≡ₚ process_lines ex_query <$> ex_parts
  ∧ merge_completed (reverse (process_lines ex_query <$> ex_parts))
    = process_lines ex_query (concat ex_parts).
Proof.
  split; [apply reverse_Permutation|].
  exact (proj1 (merge_partition_independent ex_query ex_parts
                  (reverse (process_lines ex_query <$> ex_parts))
                  (reverse_Permutation _))).
Defined.

Lemma ex_big_file_length : Z.of_nat (length ex_big_file) = 100000.
Proof. unfold ex_big_file. rewrite length_replicate. lia. Defined.


Lemma chunk_sizes_witness :
  PARALLEL_THRESHOLD ≤ Z.of_nat (length ex_big_file) ∧ 2 ≤ 4
  ∧ Z.of_nat (length (chunk_plan (Z.of_nat (length ex_big_file)) 4)) = 4.
Proof.
  assert (H1 : PARALLEL_THRESHOLD ≤ Z.of_nat (length ex_big_file)).
  { rewrite ex_big_file_length. unfold PARALLEL_THRESHOLD. lia. }
  assert (H2 : 2 ≤ 4) by lia.
  split; [exact H1|]. split; [exact H2|].
  exact (proj1 (chunk_sizes ex_big_file 4 H1 H2)).
Defined.

Lemma window_half_open_witness :
  (12 ≤ length ex_row_at_from)%nat
  ∧ filtered_out (filter_set (user_filter ex_query)) (ex_row_at_from !!! 1%nat) = false
  ∧ filtered_out (filter_set (app_filter ex_query)) (ex_row_at_from !!! 2%nat) = false
  ∧ parse_datetime (ex_row_at_from !!! 0%nat) = Some (from_dt ex_query)
  ∧ (accept ex_query (filter_set (user_filter ex_query)) (filter_set (app_filter ex_query))
            ex_row_at_from = Some (from_dt ex_query)
     ↔ dt_le (from_dt ex_query) (from_dt ex_query)
       ∧ dt_lt (from_dt ex_query) (to_dt ex_query)).
Proof.
  assert (H1 : (12 ≤ length ex_row_at_from)%nat) by (vm_compute; lia).
  assert (H2 : filtered_out (filter_set (user_filter ex_query)) (ex_row_at_from !!! 1%nat)
               = false) by (by vm_compute).
  assert (H3 : filtered_out (filter_set (app_filter ex_query)) (ex_row_at_from !!! 2%nat)
               = false) by (by vm_compute).
  assert (H4 : parse_datetime (ex_row_at_from !!! 0%nat) = Some (from_dt ex_query))
    by (by vm_compute).
  split; [exact H1|]. split; [exact H2|]. split; [exact H3|]. split; [exact H4|].
  exact (proj1 (window_half_open ex_query _ _ ex_row_at_from (from_dt ex_query) H1 H2 H3 H4)).
Defined.

Lemma caller_errors_witness :
  1 ≤ 4 ∧ get_date_range (from_dt ex_query_1h) (to_dt ex_query_1h) ≠ []
  ∧ (valid_granularity ex_query_1h = false →
     Exists (λ line, accepted ex_query_1h line) (scanned_lines ex_fs ex_query_1h) →
     aggregate_data_parallel lifo ex_fs ex_query_1h 4 = Raise ValueError_granularity).
Proof.
  assert (H1 : 1 ≤ 4) by lia.
  assert (H2 : get_date_range (from_dt ex_query_1h) (to_dt ex_query_1h) ≠ [])
    by (by vm_compute).
  split; [exact H1|]. split; [exact H2|].
  intros Hg. exact (proj1 (proj1 (caller_errors lifo ex_fs ex_query_1h 4 H1 H2) Hg)).
Defined.

Lemma missing_file_tolerance_witness :
  "2025-01-03" ∈ get_date_range (from_dt ex_query) (to_dt ex_query)
  ∧ ex_fs !! log_path "2025-01-03" = None
  ∧ 1 ≤ 4
  ∧ aggregate_data_parallel lifo ex_fs ex_query 4
    = ('(t, n) ← process_lines ex_query
                   (concat (file_lines ex_fs
                              <$> get_date_range (from_dt ex_query) (to_dt ex_query)));
       Ok (t, n, (length (get_date_range (from_dt ex_query) (to_dt ex_query))
                  - length (filter (λ d, ex_fs !! log_path d = None)
                                   (get_date_range (from_dt ex_query) (to_dt ex_query))))%nat)).
Proof.
  assert (H1 : "2025-01-03" ∈ get_date_range (from_dt ex_query) (to_dt ex_query))
    by (apply list_elem_of_In; vm_compute; auto).
  assert (H2 : ex_fs !! log_path "2025-01-03" = None) by (by vm_compute).
  assert (H3 : 1 ≤ 4) by lia.
  split; [exact H1|]. split; [exact H2|]. split; [exact H3|].
  exact (proj2 (proj2 (proj2 (proj2 (proj2 (proj2 (proj2 (proj2
           (missing_file_tolerance lifo ex_fs ex_query 4 "2025-01-03" H1 H2 H3))))))))).
Defined.

Lemma ex_run : aggregate_data_parallel lifo ex_fs ex_query 4 = Ok (ex_table, 2%nat, 2%nat).
Proof. reflexivity. Defined.

Lemma emitter_order_shape_witness :
  aggregate_data_parallel lifo ex_fs ex_query 4 = Ok (ex_table, 2%nat, 2%nat)
  ∧ StronglySorted lexico (sorted (table_keys ex_table))
  ∧ ∀ listing, listing ≡ₚ table_keys ex_table →
      rows_of_keys ex_table listing = rows_of_keys ex_table (table_keys ex_table).
Proof.
  split; [exact ex_run|].
  pose proof (emitter_order_shape lifo ex_fs ex_query 4 ex_table 2 2 ex_run) as H.
  split; [exact (proj1 (proj2 (proj2 (proj2 (proj2 H)))))|].
  exact (proj1 (proj2 (proj2 (proj2 (proj2 (proj2 (proj2 H))))))).
Defined.

Lemma rows_matched_post_filter_witness :
  aggregate_data_parallel lifo ex_fs ex_query 4 = Ok (ex_table, 2%nat, 2%nat)
  ∧ 2%nat = length (filter (λ line, accepted ex_query line) (scanned_lines ex_fs ex_query))
  ∧ 2%nat = sum_list_with (multiplicity ex_query (scanned_lines ex_fs ex_query))
                          (table_keys ex_table)
  ∧ (2 ≤ length (scanned_lines ex_fs ex_query))%nat.
Proof.
  split; [exact ex_run|].
  exact (rows_matched_post_filter lifo ex_fs ex_query 4 ex_table 2 2 ex_run).
Defined.

(** * Further properties *)

(** ** The order on datetimes, field by field *)

Lemma dt_lt_arith a b :
  dt_lt a b ↔
  dt_date a < dt_date b ∨ (dt_date a = dt_date b ∧
  (dt_hour a < dt_hour b ∨ (dt_hour a = dt_hour b ∧
  (dt_minute a < dt_minute b ∨ (dt_minute a = dt_minute b ∧
  (dt_second a < dt_second b ∨ (dt_second a = dt_second b ∧
   dt_microsecond a < dt_microsecond b))))))).
Proof.
  unfold dt_lt. rewrite <- cmp_fields_Lt.
  destruct a, b. unfold dt_fields.
  cbn [list_cmp dt_date dt_hour dt_minute dt_second dt_microsecond].
  repeat match goal with |- context [?x ?= ?y] => destruct (Z.compare_spec x y) end;
    split; intros ?; try done; try lia.
Qed.

Lemma dt_le_arith a b :
  dt_le a b ↔
  dt_date a < dt_date b ∨ (dt_date a = dt_date b ∧
  (dt_hour a < dt_hour b ∨ (dt_hour a = dt_hour b ∧
  (dt_minute a < dt_minute b ∨ (dt_minute a = dt_minute b ∧
  (dt_second a < dt_second b ∨ (dt_second a = dt_second b ∧
   dt_microsecond a ≤ dt_microsecond b))))))).
Proof.
  unfold dt_le. rewrite dt_lt_arith. split.
  - intros [->|H]; lia.
  - intros H. destruct (decide (a = b)) as [|Hne]; [by left|right].
    assert (dt_microsecond a ≠ dt_microsecond b ∨ dt_second a ≠ dt_second b
            ∨ dt_minute a ≠ dt_minute b ∨ dt_hour a ≠ dt_hour b
            ∨ dt_date a ≠ dt_date b).
    { destruct a as [d h m s u], b as [d' h' m' s' u']; simpl in *.
      destruct (decide (u = u')); [|by left].
      destruct (decide (s = s')); [|by right; left].
      destruct (decide (m = m')); [|by right; right; left].
      destruct (decide (h = h')); [|by right; right; right; left].
      destruct (decide (d = d')); [|by right; right; right; right].
      subst. done. }
    lia.
Qed.

Lemma dt_le_trans a b c : dt_le a b → dt_le b c → dt_le a c.
Proof. rewrite !dt_le_arith. lia. Qed.

Lemma dt_le_lt_trans a b c : dt_le a b → dt_lt b c → dt_lt a c.
Proof. rewrite dt_le_arith, !dt_lt_arith. lia. Qed.

Lemma dt_lt_le_trans a b c : dt_lt a b → dt_le b c → dt_lt a c.
Proof. rewrite dt_le_arith, !dt_lt_arith. lia. Qed.

Lemma dt_lt_or_le a b : dt_lt a b ∨ dt_le b a.
Proof. rewrite dt_le_arith, dt_lt_arith. lia. Qed.

Lemma dt_lt_not_le a b : dt_lt a b → ¬ dt_le b a.
Proof. rewrite dt_le_arith, dt_lt_arith. lia. Qed.

(** ** Period starts *)

Section PeriodStart.
Context {rt : Runtime}.

Lemma get_period_start_cases ts g p :
  get_period_start ts g = Ok p →
  (g = "30m"
   ∧ p = mk_datetime (dt_date ts) (dt_hour ts) (dt_minute ts `div` 30 * 30) 0 0)
  ∨ (g = "1day" ∧ p = mk_datetime (dt_date ts) 0 0 0 0).
Proof.
  unfold get_period_start.
  destruct (String.eqb g "30m") eqn:H30.
  - apply String.eqb_eq in H30. intros [= <-]. by left.
  - destruct (String.eqb g "1day") eqn:H1; [|done].
    apply String.eqb_eq in H1. intros [= <-]. by right.
Qed.

(** X1. The period start of a timestamp is never after the timestamp and
    lies on the same day, with seconds and microseconds zero; for "30m" it
    keeps the hour and its minute is the multiple of 30 at most 29 minutes
    below, for "1day" it is midnight. *)
Theorem period_start_rounds_down (timestamp : datetime) (granularity : string)
    (period_start : datetime) :
  get_period_start timestamp granularity = Ok period_start →
  dt_nonneg timestamp →
  dt_le period_start timestamp
  ∧ dt_date period_start = dt_date timestamp
  ∧ dt_second period_start = 0 ∧ dt_microsecond period_start = 0
  ∧ (granularity = "30m" →
     dt_hour period_start = dt_hour timestamp
     ∧ dt_minute period_start ≤ dt_minute timestamp < dt_minute period_start + 30
     ∧ dt_minute period_start `mod` 30 = 0)
  ∧ (granularity = "1day" → dt_hour period_start = 0 ∧ dt_minute period_start = 0).
Proof.
  intros Hp (Hh & Hm & Hs & Hu).
  apply get_period_start_cases in Hp as [[-> ->]|[-> ->]]; rewrite dt_le_arith; simpl.
  - pose proof (Z.div_mod (dt_minute timestamp) 30 ltac:(lia)) as Hdm.
    pose proof (Z.mod_pos_bound (dt_minute timestamp) 30 ltac:(lia)) as Hmb.
    repeat split; try done; try lia.
    apply Z.mod_mul. lia.
  - repeat split; try done; lia.
Qed.

(** X2. Rounding is idempotent, and the day of a 30-minute period is the
    day of the timestamp: the period start of a period start is itself, and
    its "1day" period start is that of the timestamp. *)
Theorem period_start_idempotent (timestamp : datetime) (granularity : string)
    (period_start : datetime) :
  get_period_start timestamp granularity = Ok period_start →
  get_period_start period_start granularity = Ok period_start
  ∧ get_period_start period_start "1day" = get_period_start timestamp "1day".
Proof.
  intros Hp. apply get_period_start_cases in Hp as [[-> ->]|[-> ->]].
  - split; [|done]. unfold get_period_start. simpl. do 2 f_equal.
    rewrite Z.div_mul by lia. done.
  - done.
Qed.

(** X3. Bucketing keeps the order of time: of two timestamps, the earlier
    one's period start is not after the later one's. *)
Theorem period_start_monotone (t1 t2 : datetime) (granularity : string) (p1 p2 : datetime) :
  dt_le t1 t2 →
  get_period_start t1 granularity = Ok p1 →
  get_period_start t2 granularity = Ok p2 →
  dt_le p1 p2.
Proof.
  intros Hle H1 H2. rewrite dt_le_arith in *.
  apply get_period_start_cases in H1 as [[-> ->]|[-> ->]];
    apply get_period_start_cases in H2 as [[? ->]|[? ->]]; try done; simpl.
  - pose proof (Z.div_mod (dt_minute t1) 30 ltac:(lia)).
    pose proof (Z.mod_pos_bound (dt_minute t1) 30 ltac:(lia)).
    pose proof (Z.div_mod (dt_minute t2) 30 ltac:(lia)).
    pose proof (Z.mod_pos_bound (dt_minute t2) 30 ltac:(lia)).
    lia.
  - lia.
Qed.

End PeriodStart.

(** ** What the table holds *)

Section TableContents.
Context {rt : Runtime}.

Lemma rows_totals q t0 n0 lines t n :
  table_wf t0 →
  for_each (process_row q (filter_set (user_filter q)) (filter_set (app_filter q)))
           (t0, n0) lines = Ok (t, n) →
  ∀ key, default zero_vector (t !! key)
         = foldl vadd (default zero_vector (t0 !! key))
                 (line_metrics <$> filter (λ line, row_key q line = Some key) lines).
Proof.
  revert t0 n0. induction lines as [|l lines IH]; intros t0 n0 Hwf; simpl.
  - by intros [= <- <-].
  - destruct (process_row q _ _ (t0, n0) l) as [[t1 n1]|e] eqn:Hl; simpl; [|done].
    intros Hrest key.
    assert (Hwf1 : table_wf t1) by (by eapply process_row_wf).
    rewrite (IH t1 n1 Hwf1 Hrest key).
    apply process_row_cases in Hl
      as [(_ & Hkey & -> & ->)|(_ & key' & m & Hkey & Hm & -> & ->)].
    + rewrite filter_cons_False by (rewrite Hkey; done). done.
    + pose proof (parse_metrics_length _ _ Hm) as Hlen.
      rewrite add_metrics_spec by done.
      destruct (decide (key = key')) as [->|Hne].
      * rewrite filter_cons_True by done. rewrite lookup_insert_eq. simpl.
        unfold line_metrics. by rewrite Hm.
      * rewrite filter_cons_False by (rewrite Hkey; congruence).
        by rewrite lookup_insert_ne.
Qed.

Lemma process_lines_totals q lines t n key v :
  process_lines q lines = Ok (t, n) → t !! key = Some v → v = key_total q lines key.
Proof.
  intros Hp Hv. unfold process_lines in Hp.
  pose proof (rows_totals q ∅ 0%nat lines t n table_wf_empty Hp key) as Ht.
  rewrite Hv, lookup_empty in Ht. done.
Qed.

Lemma engine_scan sched fs q num_threads t n files :
  aggregate_data_parallel sched fs q num_threads = Ok (t, n, files) →
  process_lines q (scanned_lines fs q) = Ok (t, n)
  ∧ files = length (existing_files fs (get_date_range (from_dt q) (to_dt q))).
Proof.
  rewrite aggregate_data_parallel_scan. case_bool_decide; [done|].
  destruct (process_lines q (scanned_lines fs q)) as [[t' n']|e]; simpl; [|done].
  by intros [= <- <- <-].
Qed.

(** X4. In the table the engine returns, a key is present exactly when
    some scanned line is aggregated under it, and its vector is the
    element-wise sum of the nine metrics of those lines. *)
Theorem table_holds_sums (sched : scheduler) (fs : filesystem) (q : query)
    (num_threads : Z) (t : table) (n files : nat) :
  aggregate_data_parallel sched fs q num_threads = Ok (t, n, files) →
  (∀ key, is_Some (t !! key)
          ↔ ∃ line, line ∈ scanned_lines fs q ∧ row_key q line = Some key)
  ∧ (∀ key v, t !! key = Some v →
       v = key_total q (scanned_lines fs q) key ∧ length v = 9%nat).
Proof.
  intros Hrun. apply engine_scan in Hrun as [Hp _].
  split.
  - by apply process_lines_rows in Hp as (_ & _ & Hdom).
  - intros key v Hv. split; [by eapply process_lines_totals|].
    pose proof (process_lines_ok q (scanned_lines fs q)) as Hok.
    rewrite Hp in Hok. by apply (Hok key v).
Qed.

(** X5. The table the engine returns is empty exactly when it reports
    zero matched rows. *)
Theorem empty_table_iff_no_rows (sched : scheduler) (fs : filesystem) (q : query)
    (num_threads : Z) (t : table) (n files : nat) :
  aggregate_data_parallel sched fs q num_threads = Ok (t, n, files) →
  t = ∅ ↔ n = 0%nat.
Proof.
  intros Hrun. apply engine_scan in Hrun as [Hp _].
  apply process_lines_rows in Hp as (Hn & Hsum & Hdom). split.
  - intros ->. rewrite Hsum. unfold table_keys. by rewrite map_to_list_empty.
  - intros Hn0. apply map_empty. intros key. apply eq_None_not_Some.
    intros (line & Hin & Hk)%Hdom. apply row_key_accepted in Hk.
    assert (Hin' : line ∈ filter (λ line, accepted q line) (scanned_lines fs q))
      by (by apply list_elem_of_filter).
    rewrite Hn0 in Hn. symmetry in Hn. apply length_zero_iff_nil in Hn.
    rewrite Hn in Hin'. by apply elem_of_nil in Hin'.
Qed.

Lemma dim_values_length dimensions user app user' app' :
  length (dim_values dimensions user app) = length (dim_values dimensions user' app').
Proof. unfold dim_values. by do 2 case_bool_decide. Qed.

Lemma header_length dimensions :
  length (header dimensions) = (1 + length (dim_values dimensions "" "") + 9)%nat.
Proof. unfold header, dim_values. by do 2 case_bool_decide. Qed.

(** X6. What [write_results] writes for the table the engine returns is
    rectangular: one header row and one row per key of the table, every
    row with as many cells as the header. *)
Theorem output_is_rectangular (sched : scheduler) (fs : filesystem) (q : query)
    (num_threads : Z) (t : table) (n files : nat) :
  aggregate_data_parallel sched fs q num_threads = Ok (t, n, files) →
  length (write_results t (dimensions q)) = S (size t)
  ∧ Forall (λ row, length row = length (header (dimensions q)))
           (write_results t (dimensions q)).
Proof.
  intros Hrun. apply engine_scan in Hrun as [Hp _].
  pose proof (process_lines_ok q (scanned_lines fs q)) as Hwf. rewrite Hp in Hwf.
  apply process_lines_rows in Hp as (_ & _ & Hdom).
  unfold write_results, rows_of_keys. split.
  - simpl. rewrite length_fmap, sorted_Permutation. unfold table_keys.
    by rewrite length_fmap, length_map_to_list.
  - apply Forall_cons. split; [by rewrite length_fmap|].
    apply Forall_fmap, Forall_forall. intros key Hin. cbn beta.
    rewrite sorted_Permutation in Hin. apply elem_of_table_keys in Hin as [v Hv].
    assert (is_Some (t !! key)) as (line & _ & Hk)%Hdom by (by exists v).
    apply row_key_shape in Hk as (p & u & a & ->).
    unfold compose, output_row. rewrite (lookup_total_correct _ _ _ Hv).
    rewrite length_app, !length_fmap, (Hwf _ _ Hv), header_length. cbn [length].
    rewrite (dim_values_length _ u a "" ""). lia.
Qed.

End TableContents.

(** ** Dimensions, workers and schedulers *)

Lemma for_each_ext {S X} (f g : S → X → res S) (s : S) (xs : list X) :
  (∀ s x, f s x = g s x) → for_each f s xs = for_each g s xs.
Proof.
  intros Hfg. revert s. induction xs as [|x xs IH]; intros s; simpl; [done|].
  rewrite Hfg. destruct (g s x); simpl; [apply IH|done].
Qed.

Section Arguments.
Context {rt : Runtime}.

Lemma dim_values_membership dims dims' user app :
  ("user" ∈ dims ↔ "user" ∈ dims') → ("app" ∈ dims ↔ "app" ∈ dims') →
  dim_values dims' user app = dim_values dims user app.
Proof.
  intros Hu Ha. unfold dim_values.
  rewrite (bool_decide_ext _ _ Hu), (bool_decide_ext _ _ Ha). done.
Qed.

Lemma process_lines_dimensions q dims' lines :
  ("user" ∈ dimensions q ↔ "user" ∈ dims') → ("app" ∈ dimensions q ↔ "app" ∈ dims') →
  process_lines (with_dimensions q dims') lines = process_lines q lines.
Proof.
  intros Hu Ha. unfold process_lines. apply for_each_ext. intros [t n] line.
  unfold process_row. cbn [with_dimensions from_dt to_dt granularity dimensions
                           user_filter app_filter].
  change (accept (with_dimensions q dims')) with (accept q).
  destruct (accept q _ _ (csv_fields line)); [|done].
  destruct (get_period_start _ _); simpl; [|done].
  by rewrite (dim_values_membership (dimensions q) dims').
Qed.

(** X7. Only which of "user" and "app" occur in the dimension list
    matters, not their order nor repetitions nor other entries: two lists
    with the same two memberships give the same answer of the engine and
    the same header. *)
Theorem dimension_order_irrelevant (sched : scheduler) (fs : filesystem) (q : query)
    (num_threads : Z) (dims' : list string) :
  ("user" ∈ dimensions q ↔ "user" ∈ dims') →
  ("app" ∈ dimensions q ↔ "app" ∈ dims') →
  aggregate_data_parallel sched fs (with_dimensions q dims') num_threads
  = aggregate_data_parallel sched fs q num_threads
  ∧ header dims' = header (dimensions q)
  ∧ ∀ t, write_results t dims' = write_results t (dimensions q).
Proof.
  intros Hu Ha.
  assert (Hh : header dims' = header (dimensions q)).
  { unfold header. rewrite (bool_decide_ext _ _ Hu), (bool_decide_ext _ _ Ha). done. }
  split; [|split; [done|]].
  - unfold aggregate_data_parallel.
    cbn [with_dimensions from_dt to_dt].
    case_bool_decide; [done|]. do 2 f_equal.
    apply list_fmap_ext. intros i d _.
    rewrite !process_file_chunk_day. by apply process_lines_dimensions.
  - intros t. unfold write_results. by rewrite Hh.
Qed.

(** X8. The answer of the engine does not depend on the scheduler nor on
    the number of workers, as long as there is at least one. *)
Theorem engine_ignores_scheduling (sched sched' : scheduler) (fs : filesystem) (q : query)
    (num_threads num_threads' : Z) :
  1 ≤ num_threads → 1 ≤ num_threads' →
  aggregate_data_parallel sched fs q num_threads
  = aggregate_data_parallel sched' fs q num_threads'.
Proof.
  intros HN HN'. rewrite !aggregate_data_parallel_scan.
  destruct (decide (length (get_date_range (from_dt q) (to_dt q)) = 0%nat)) as [H0|H0].
  - rewrite !bool_decide_eq_true_2 by lia. done.
  - rewrite !bool_decide_eq_false_2 by lia. done.
Qed.

Lemma get_date_range_length from_dt to_dt :
  length (get_date_range from_dt to_dt) = Z.to_nat (dt_date to_dt - dt_date from_dt + 1).
Proof. unfold get_date_range. by rewrite length_fmap, length_seqZ. Qed.

(** X9. With no worker, or a window whose last day precedes its first,
    the engine raises the executor's ValueError whatever the files hold,
    where the sequential script, for such a window, returns the empty
    table. *)
Theorem engine_rejects_empty_pool (sched : scheduler) (fs : filesystem) (q : query)
    (num_threads : Z) :
  num_threads ≤ 0 ∨ dt_date (to_dt q) < dt_date (from_dt q) →
  aggregate_data_parallel sched fs q num_threads = Raise ValueError_max_workers
  ∧ (dt_date (to_dt q) < dt_date (from_dt q) → aggregate_data fs q = Ok ∅).
Proof.
  intros Hbad. split.
  - unfold aggregate_data_parallel. rewrite bool_decide_eq_true_2; [done|].
    rewrite get_date_range_length. lia.
  - intros Hinv. unfold aggregate_data.
    pose proof (get_date_range_length (from_dt q) (to_dt q)) as Hlen.
    destruct (get_date_range (from_dt q) (to_dt q)); [done|]. simpl in Hlen. lia.
Qed.

(** X10. For an existing file in which no line leaves a quoted field
    open (every record is one line), [process_file_parallel] with any
    positive number of workers and any scheduler returns what one worker
    returns on the whole file, which is one pass over the lines. *)
Theorem parallel_file_equals_single_worker (sched : scheduler) (fs : filesystem)
    (filepath : string) (q : query) (num_threads : Z) (lines : list string) :
  fs !! filepath = Some lines → one_record_per_line lines → 1 ≤ num_threads →
  process_file_parallel sched fs filepath q num_threads
  = process_file_chunk fs filepath q 0 None
  ∧ process_file_parallel sched fs filepath q num_threads = process_lines q lines.
Proof.
  intros Hfs Hlines HN.
  rewrite (process_file_parallel_whole _ _ _ _ _ lines) by done.
  split; [done|].
  rewrite (process_file_chunk_whole _ _ _ lines) by done.
  by rewrite csv_records_lines.
Qed.

(** X11. The worker count is only looked at for files of at least 100000
    lines: there zero workers raise ZeroDivisionError and a negative
    count the executor's ValueError, while a smaller file is processed by
    one worker whatever the count; a missing file raises
    FileNotFoundError, where a worker given the same path returns the
    empty table. *)
Theorem parallel_file_edge_cases (sched : scheduler) (fs : filesystem) (filepath : string)
    (q : query) (num_threads : Z) (lines : list string) :
  fs !! filepath = Some lines →
  (Z.of_nat (length lines) < PARALLEL_THRESHOLD →
     process_file_parallel sched fs filepath q num_threads
     = process_file_chunk fs filepath q 0 None)
  ∧ (PARALLEL_THRESHOLD ≤ Z.of_nat (length lines) → num_threads = 0 →
     process_file_parallel sched fs filepath q num_threads = Raise ZeroDivisionError)
  ∧ (PARALLEL_THRESHOLD ≤ Z.of_nat (length lines) → num_threads < 0 →
     process_file_parallel sched fs filepath q num_threads = Raise ValueError_max_workers)
  ∧ (∀ missing, fs !! missing = None →
     process_file_parallel sched fs missing q num_threads = Raise FileNotFoundError
     ∧ process_file_chunk fs missing q 0 None = Ok (∅, 0%nat)).
Proof.
  intros Hfs. unfold PARALLEL_THRESHOLD. repeat split.
  - intros Hsmall. unfold process_file_parallel. rewrite Hfs. cbv zeta.
    case_bool_decide as HL0.
    + rewrite (process_file_chunk_whole _ _ _ lines) by done.
      destruct lines; [done|]. simpl in HL0. lia.
    + unfold PARALLEL_THRESHOLD. rewrite (bool_decide_eq_true_2 (_ < _)) by done. done.
  - intros Hbig ->. unfold process_file_parallel. rewrite Hfs. cbv zeta.
    unfold PARALLEL_THRESHOLD.
    rewrite !bool_decide_eq_false_2 by lia. simpl. done.
  - intros Hbig Hneg. unfold process_file_parallel. rewrite Hfs. cbv zeta.
    unfold PARALLEL_THRESHOLD.
    rewrite (bool_decide_eq_false_2 (_ = 0)), (bool_decide_eq_false_2 (_ < 100000)),
      (bool_decide_eq_false_2 (num_threads = 1)), (bool_decide_eq_false_2 (num_threads = 0)),
      (bool_decide_eq_true_2 (num_threads < 0)) by lia.
    done.
  - unfold process_file_parallel. by rewrite H.
  - unfold process_file_chunk. by rewrite H.
Qed.

(** Two ranges one after the other are the range of their joint size. *)
Lemma chunk_lines_adjacent {A} (lines : list A) (s c1 c2 : Z) :
  0 ≤ s → 1 ≤ c1 → 1 ≤ c2 →
  chunk_lines lines s (Some (c1 + c2))
  = chunk_lines lines s (Some c1) ++ chunk_lines lines (s + c1) (Some c2).
Proof.
  intros Hs H1 H2. unfold chunk_lines.
  rewrite !bool_decide_eq_false_2 by lia.
  rewrite (Z2Nat.inj_add s c1), (Z2Nat.inj_add c1 c2) by lia.
  rewrite <- drop_drop, take_take_drop. done.
Qed.

(** X12. Chunks compose on a file in which no line leaves a quoted field
    open (every record is one line): the results of two workers on
    adjacent chunks, merged in either order, are the result of one worker
    on the chunk that spans both; and a worker whose chunk starts at or
    after the end of the file returns the empty table and zero rows. *)
Theorem adjacent_chunks_compose (fs : filesystem) (filepath : string) (q : query)
    (lines : list string) (chunk_start size1 size2 : Z) :
  fs !! filepath = Some lines → one_record_per_line lines →
  0 ≤ chunk_start → 1 ≤ size1 → 1 ≤ size2 →
  let first := process_file_chunk fs filepath q chunk_start (Some size1) in
  let second := process_file_chunk fs filepath q (chunk_start + size1) (Some size2) in
  merge_completed [first; second]
  = process_file_chunk fs filepath q chunk_start (Some (size1 + size2))
  ∧ merge_completed [second; first]
    = process_file_chunk fs filepath q chunk_start (Some (size1 + size2))
  ∧ (∀ start size, Z.of_nat (length lines) ≤ start →
       process_file_chunk fs filepath q start size = Ok (∅, 0%nat)).
Proof.
  intros Hfs Hlines Hs H1 H2. cbv zeta.
  assert (Hfwd : merge_completed
                   [process_file_chunk fs filepath q chunk_start (Some size1);
                    process_file_chunk fs filepath q (chunk_start + size1) (Some size2)]
                 = process_file_chunk fs filepath q chunk_start (Some (size1 + size2))).
  { rewrite !(process_file_chunk_lines _ _ _ lines) by done.
    rewrite !chunk_records_lines by done.
    rewrite chunk_lines_adjacent by done.
    set (A := chunk_lines lines chunk_start (Some size1)).
    set (B := chunk_lines lines (chunk_start + size1) (Some size2)).
    change (merge_completed (process_lines q <$> [A; B]) = process_lines q (A ++ B)).
    rewrite merge_completed_concat. simpl. by rewrite app_nil_r. }
  split; [done|]. split.
  - rewrite <- Hfwd. apply (merge_completed_perm q); [|apply perm_swap].
    rewrite !(process_file_chunk_lines _ _ _ lines) by done.
    repeat constructor; apply process_lines_ok.
  - intros start size Hlen.
    rewrite (process_file_chunk_lines _ _ _ lines) by done.
    rewrite chunk_records_lines by done.
    assert (Hd : drop (Z.to_nat start) lines = []) by (apply drop_ge; lia).
    unfold chunk_lines. rewrite Hd.
    destruct size as [c|]; [|done]. case_bool_decide; [done|]. by rewrite take_nil.
Qed.

End Arguments.

(** ** The sequential script against the engine *)

Section SequentialAgainstEngine.
Context {rt : Runtime}.

(** What the reader does on a line of at least 12 fields whose metrics
    parse: it yields the line when the tests of the engine accept it. *)
Lemma read_row_accept q us aps yielded line m :
  (12 ≤ length (csv_fields line))%nat →
  parse_metrics (csv_fields line) = Ok m →
  read_row (from_dt q) (to_dt q) us aps yielded line
  = Ok (yielded ++
        match accept q us aps (csv_fields line) with
        | Some row_dt =>
            [(mk_parsed (csv_fields line !!! 0%nat) (csv_fields line !!! 1%nat)
                        (csv_fields line !!! 2%nat) m, row_dt)]
        | None => []
        end).
Proof.
  intros Hlen Hm. unfold read_row, parse_row, accept, outside_window.
  rewrite !bool_decide_eq_false_2 by lia. rewrite Hm. simpl.
  destruct (filtered_out us _); [by rewrite app_nil_r|].
  destruct (filtered_out aps _); [by rewrite app_nil_r|].
  destruct (parse_datetime _); [|by rewrite app_nil_r].
  destruct (dt_ltb _ _ || dt_geb _ _); [by rewrite app_nil_r|done].
Qed.

Lemma read_row_short from_dt to_dt us aps yielded line :
  (length (csv_fields line) < 12)%nat →
  read_row from_dt to_dt us aps yielded line = Ok yielded.
Proof. intros Hlen. unfold read_row. by rewrite bool_decide_eq_true_2. Qed.

Lemma read_row_malformed from_dt to_dt us aps yielded line :
  (12 ≤ length (csv_fields line))%nat → malformed_metric (csv_fields line) →
  raises (read_row from_dt to_dt us aps yielded line).
Proof.
  intros Hlen Hbad. unfold read_row. rewrite bool_decide_eq_false_2 by lia.
  apply parse_metrics_raises in Hbad as [e Hbad].
  unfold parse_row. rewrite Hbad. simpl. apply raises_Raise.
Qed.

Lemma well_formed_parses line :
  ((12 ≤ length (csv_fields line))%nat → ¬ malformed_metric (csv_fields line)) →
  (12 ≤ length (csv_fields line))%nat →
  ∃ m, parse_metrics (csv_fields line) = Ok m.
Proof.
  intros Hwf Hlen. apply not_raises_inv. rewrite parse_metrics_raises. by apply Hwf.
Qed.

(** On a line whose metrics are well formed, the sequential loop and the
    worker of the engine do the same to the table. *)
Lemma aggregate_line_process_row q t n line :
  ((12 ≤ length (csv_fields line))%nat → ¬ malformed_metric (csv_fields line)) →
  aggregate_line q (filter_set (user_filter q)) (filter_set (app_filter q)) t line
  = fst <$> process_row q (filter_set (user_filter q)) (filter_set (app_filter q)) (t, n) line.
Proof.
  intros Hwf. unfold aggregate_line.
  destruct (decide (length (csv_fields line) < 12)%nat) as [Hshort|Hlong].
  - rewrite read_row_short by done. simpl.
    rewrite process_row_rejected by (by apply accept_short). done.
  - destruct (well_formed_parses line Hwf ltac:(lia)) as [m Hm].
    rewrite (read_row_accept q _ _ [] line m) by (done || lia). simpl.
    unfold process_row.
    destruct (accept q _ _ (csv_fields line)) as [row_dt|]; [|done].
    simpl. unfold aggregate_yield. simpl.
    destruct (get_period_start row_dt (granularity q)); simpl; [|done].
    by rewrite Hm.
Qed.

Lemma aggregate_lines_process_rows q t n lines :
  metrics_well_formed lines →
  for_each (aggregate_line q (filter_set (user_filter q)) (filter_set (app_filter q))) t lines
  = fst <$> for_each (process_row q (filter_set (user_filter q)) (filter_set (app_filter q)))
                     (t, n) lines.
Proof.
  intros Hwf. revert t n. induction Hwf as [|l lines Hl _ IH]; intros t n; simpl; [done|].
  rewrite (aggregate_line_process_row q t n l Hl).
  destruct (process_row q _ _ (t, n) l) as [[t1 n1]|e]; simpl; [apply IH|done].
Qed.

Lemma aggregate_line_Ok_well_formed q us aps t line t' :
  aggregate_line q us aps t line = Ok t' →
  (12 ≤ length (csv_fields line))%nat → ¬ malformed_metric (csv_fields line).
Proof.
  intros Hok Hlen Hbad. unfold aggregate_line in Hok.
  destruct (read_row_malformed (from_dt q) (to_dt q) us aps [] line Hlen Hbad) as [e He].
  by rewrite He in Hok.
Qed.

Lemma aggregate_lines_Ok_well_formed q us aps t lines t' :
  for_each (aggregate_line q us aps) t lines = Ok t' → metrics_well_formed lines.
Proof.
  revert t. induction lines as [|l lines IH]; intros t; simpl; [constructor|].
  destruct (aggregate_line q us aps t l) as [t1|e] eqn:Hl; simpl; [|done].
  intros Hrest. constructor; [by eapply aggregate_line_Ok_well_formed|by eapply IH].
Qed.

Lemma aggregate_files_process_rows fs q t n (days : list string) :
  metrics_well_formed (concat (file_lines fs <$> days)) →
  for_each (aggregate_file fs q) t days
  = fst <$> for_each (process_row q (filter_set (user_filter q)) (filter_set (app_filter q)))
                     (t, n) (concat (file_lines fs <$> days)).
Proof.
  revert t n. induction days as [|d days IH]; intros t n Hwf; [done|].
  rewrite fmap_cons in *. cbn [concat] in *.
  apply Forall_app in Hwf as [Hd Hdays].
  rewrite for_each_app. cbn [for_each].
  assert (Hfile : aggregate_file fs q t d
                  = fst <$> for_each (process_row q (filter_set (user_filter q))
                                                  (filter_set (app_filter q)))
                                     (t, n) (file_lines fs d)).
  { unfold aggregate_file, file_lines in *.
    destruct (fs !! log_path d) as [lines|]; [|done].
    by apply aggregate_lines_process_rows. }
  rewrite Hfile.
  destruct (for_each _ (t, n) (file_lines fs d)) as [[t1 n1]|e]; simpl; [|done].
  by apply IH.
Qed.

Lemma aggregate_files_Ok_well_formed fs q t (days : list string) t' :
  for_each (aggregate_file fs q) t days = Ok t' →
  metrics_well_formed (concat (file_lines fs <$> days)).
Proof.
  revert t. induction days as [|d days IH]; intros t; simpl; [constructor|].
  destruct (aggregate_file fs q t d) as [t1|e] eqn:Hd; simpl; [|done].
  intros Hrest. apply Forall_app. split; [|by eapply IH].
  unfold aggregate_file, file_lines in *.
  destruct (fs !! log_path d) as [lines|]; [|constructor].
  by eapply aggregate_lines_Ok_well_formed.
Qed.

Lemma aggregate_data_scan fs q :
  metrics_well_formed (scanned_lines fs q) →
  aggregate_data fs q = fst <$> process_lines q (scanned_lines fs q).
Proof.
  intros Hwf. unfold aggregate_data, process_lines, scanned_lines in *.
  rewrite <- all_days_lines in *. by apply aggregate_files_process_rows.
Qed.

(** X13. When every scanned line of at least 12 fields has integer
    metrics, the sequential script and the engine (at least one worker,
    a window of at least one day) agree: the same table, or the same
    exception. *)
Theorem sequential_agrees_with_engine (sched : scheduler) (fs : filesystem) (q : query)
    (num_threads : Z) :
  metrics_well_formed (scanned_lines fs q) →
  1 ≤ num_threads → get_date_range (from_dt q) (to_dt q) ≠ [] →
  aggregate_data fs q
  = ('(t, _, _) ← aggregate_data_parallel sched fs q num_threads; Ok t).
Proof.
  intros Hwf HN Hne. rewrite aggregate_data_scan by done.
  rewrite aggregate_data_parallel_run by done.
  by destruct (process_lines q (scanned_lines fs q)) as [[t n]|e].
Qed.

(** X14. Whenever the sequential script returns a table, the engine
    returns the same table. *)
Theorem sequential_table_is_engine_table (sched : scheduler) (fs : filesystem) (q : query)
    (num_threads : Z) (t : table) :
  aggregate_data fs q = Ok t →
  1 ≤ num_threads → get_date_range (from_dt q) (to_dt q) ≠ [] →
  ∃ n files, aggregate_data_parallel sched fs q num_threads = Ok (t, n, files).
Proof.
  intros Hseq HN Hne.
  assert (Hwf : metrics_well_formed (scanned_lines fs q)).
  { unfold scanned_lines. rewrite <- all_days_lines.
    by eapply aggregate_files_Ok_well_formed. }
  rewrite aggregate_data_scan in Hseq by done.
  rewrite aggregate_data_parallel_run by done.
  destruct (process_lines q (scanned_lines fs q)) as [[t' n]|e]; simpl in *; [|done].
  injection Hseq as ->. by eexists _, _.
Qed.

Lemma read_rows_yields q us aps yielded lines ys :
  for_each (read_row (from_dt q) (to_dt q) us aps) yielded lines = Ok ys →
  ys.*2 = yielded.*2 ++ omap (λ line, accept q us aps (csv_fields line)) lines
  ∧ (Forall (λ y, length (p_metrics y.1) = 9%nat) yielded →
     Forall (λ y, length (p_metrics y.1) = 9%nat) ys).
Proof.
  revert yielded. induction lines as [|l lines IH]; intros yielded; simpl.
  - intros [= <-]. by rewrite app_nil_r.
  - destruct (read_row _ _ us aps yielded l) as [y1|e] eqn:Hl; simpl; [|done].
    intros Hrest. destruct (IH _ Hrest) as [Hys Hlen]. rewrite Hys. clear IH Hrest Hys.
    destruct (decide (length (csv_fields l) < 12)%nat) as [Hshort|Hlong].
    + rewrite read_row_short in Hl by done. injection Hl as <-.
      rewrite accept_short by done. done.
    + destruct (parse_metrics (csv_fields l)) as [m|e] eqn:Hm.
      * rewrite (read_row_accept q us aps yielded l m) in Hl by (done || lia).
        injection Hl as <-.
        destruct (accept q us aps (csv_fields l)) as [row_dt|].
        -- rewrite fmap_app, <- app_assoc. split; [done|]. intros Hy. apply Hlen.
           apply Forall_app. split; [done|]. repeat constructor. simpl.
           by eapply parse_metrics_length.
        -- by rewrite app_nil_r in *.
      * exfalso.
        destruct (read_row_malformed (from_dt q) (to_dt q) us aps yielded l ltac:(lia))
          as [e' He']; [|congruence].
        apply parse_metrics_raises. by exists e.
Qed.

Lemma read_rows_yielded q yielded lines ys :
  for_each (read_row (from_dt q) (to_dt q) (filter_set (user_filter q))
                     (filter_set (app_filter q))) yielded lines = Ok ys →
  ys = yielded ++ omap (yielded_row q) lines ∧ metrics_well_formed lines.
Proof.
  revert yielded. induction lines as [|l lines IH]; intros yielded; simpl.
  - intros [= <-]. split; [by rewrite app_nil_r|constructor].
  - destruct (read_row _ _ _ _ yielded l) as [y1|e] eqn:Hl; simpl; [|done].
    intros Hrest. destruct (IH _ Hrest) as [-> Hwf]. clear IH Hrest.
    destruct (decide (length (csv_fields l) < 12)%nat) as [Hshort|Hlong].
    + rewrite read_row_short in Hl by done. injection Hl as <-.
      assert (Hy : yielded_row q l = None)
        by (unfold yielded_row; cbv zeta; by rewrite accept_short).
      rewrite Hy. split; [done|]. constructor; [lia|done].
    + destruct (parse_metrics (csv_fields l)) as [m|e] eqn:Hm.
      * rewrite (read_row_accept q _ _ yielded l m) in Hl by (done || lia).
        injection Hl as <-. split.
        -- destruct (accept q _ _ (csv_fields l)) as [row_dt|] eqn:Hacc.
           ++ assert (Hy : yielded_row q l
                           = Some (mk_parsed (csv_fields l !!! 0%nat) (csv_fields l !!! 1%nat)
                                             (csv_fields l !!! 2%nat) m, row_dt))
                by (unfold yielded_row; cbv zeta; by rewrite Hacc, Hm).
              rewrite Hy. by rewrite <- app_assoc.
           ++ assert (Hy : yielded_row q l = None)
                by (unfold yielded_row; cbv zeta; by rewrite Hacc).
              rewrite Hy. by rewrite app_nil_r.
        -- constructor; [|done]. intros _ Hbad.
           apply parse_metrics_raises in Hbad as [e He]. congruence.
      * exfalso.
        destruct (read_row_malformed (from_dt q) (to_dt q) (filter_set (user_filter q))
                    (filter_set (app_filter q)) yielded l ltac:(lia)) as [e' He'];
          [|congruence].
        apply parse_metrics_raises. by exists e.
Qed.

(** X15. When the reader of the sequential script returns, what it has
    yielded is, in file order, one pair for each record that the tests of
    the engine's worker accept and no other: the record's timestamp, user
    and app fields, its nine metrics as integers, and the datetime those
    tests parse; and every record of at least 12 fields has integer
    metrics. *)
Theorem reader_yields_accepted_lines (fs : filesystem) (filepath : string) (q : query)
    (lines : list string) (ys : list (parsed_row * datetime)) :
  fs !! filepath = Some lines →
  read_log_file fs filepath (from_dt q) (to_dt q) (user_filter q) (app_filter q) = Ok ys →
  ys = omap (yielded_row q) (csv_records lines)
  ∧ metrics_well_formed (csv_records lines)
  ∧ ys.*2 = omap (λ line, accept q (filter_set (user_filter q)) (filter_set (app_filter q))
                                 (csv_fields line)) (csv_records lines)
  ∧ length ys = length (filter (λ line, accepted q line) (csv_records lines))
  ∧ Forall (λ y, length (p_metrics y.1) = 9%nat) ys.
Proof.
  intros Hfs Hread. unfold read_log_file in Hread. rewrite Hfs in Hread.
  destruct (read_rows_yielded _ _ _ _ Hread) as [Hys Hwf].
  apply read_rows_yields in Hread as [Hdts Hlen]. simpl in Hys, Hdts.
  split; [done|]. split; [done|]. split; [done|]. split; [|by apply Hlen].
  rewrite <- (length_fmap snd ys), Hdts. clear.
  induction (csv_records lines) as [|l records IH]; [done|]. cbn [omap list_omap].
  destruct (accept q _ _ (csv_fields l)) eqn:Hl.
  - rewrite filter_cons_True by (unfold accepted; rewrite Hl; exact I).
    cbn [length]. f_equal. exact IH.
  - rewrite filter_cons_False by (unfold accepted; rewrite Hl; exact id). exact IH.
Qed.

End SequentialAgainstEngine.

(** ** Splitting the window *)

Section WindowSplit.
Context {rt : Runtime}.

Lemma outside_window_true from_dt to_dt row_dt :
  outside_window from_dt to_dt row_dt = true ↔ ¬ (dt_le from_dt row_dt ∧ dt_lt row_dt to_dt).
Proof.
  rewrite <- outside_window_false.
  destruct (outside_window from_dt to_dt row_dt); split; try done; intros H; by destruct H.
Qed.

Lemma outside_window_split a b c row_dt :
  dt_le a b → dt_le b c →
  outside_window a c row_dt = outside_window a b row_dt && outside_window b c row_dt
  ∧ (outside_window a b row_dt = false → outside_window b c row_dt = true).
Proof.
  intros Hab Hbc.
  assert (Hiff : dt_le a row_dt ∧ dt_lt row_dt c
                 ↔ (dt_le a row_dt ∧ dt_lt row_dt b) ∨ (dt_le b row_dt ∧ dt_lt row_dt c)).
  { split.
    - intros [Ha Hc]. destruct (dt_lt_or_le row_dt b); [by left|by right].
    - intros [[Ha Hb]|[Hb Hc]].
      + split; [done|]. by eapply dt_lt_le_trans.
      + split; [|done]. by eapply dt_le_trans. }
  assert (Hex : dt_le a row_dt ∧ dt_lt row_dt b → ¬ (dt_le b row_dt ∧ dt_lt row_dt c)).
  { intros [_ Hb] [Hb' _]. by apply (dt_lt_not_le row_dt b). }
  rewrite <- (outside_window_false a c), <- (outside_window_false a b),
    <- (outside_window_false b c) in Hiff.
  rewrite <- (outside_window_false a b), <- (outside_window_false b c) in Hex.
  destruct (outside_window a c row_dt), (outside_window a b row_dt),
    (outside_window b c row_dt); simpl; split; try done; exfalso; intuition congruence.
Qed.

(** One line from the empty state: the window [[a, c)] against its two
    halves. *)
Lemma process_row_window_split q a b c line :
  dt_le a b → dt_le b c →
  process_row (with_window q a c) (filter_set (user_filter q)) (filter_set (app_filter q))
              (∅, 0%nat) line
  = '(t1, n1) ← process_row (with_window q a b) (filter_set (user_filter q))
                            (filter_set (app_filter q)) (∅, 0%nat) line;
    '(t2, n2) ← process_row (with_window q b c) (filter_set (user_filter q))
                            (filter_set (app_filter q)) (∅, 0%nat) line;
    Ok (table_sum t1 t2, (n1 + n2)%nat).
Proof.
  intros Hab Hbc. unfold process_row, accept.
  cbn [with_window from_dt to_dt granularity dimensions].
  case_bool_decide; [by simpl; rewrite ?table_sum_empty_l|].
  destruct (filtered_out _ _); [by simpl; rewrite ?table_sum_empty_l|].
  destruct (filtered_out _ _); [by simpl; rewrite ?table_sum_empty_l|].
  destruct (parse_datetime _) as [row_dt|]; [|by simpl; rewrite ?table_sum_empty_l].
  destruct (outside_window_split a b c row_dt Hab Hbc) as [-> Hexcl].
  destruct (outside_window a b row_dt); simpl.
  - destruct (outside_window b c row_dt); simpl; [by simpl; rewrite ?table_sum_empty_l|].
    destruct (get_period_start row_dt (granularity q)); simpl; [|done].
    destruct (parse_metrics _); simpl; [|done].
    by rewrite ?table_sum_empty_l.
  - rewrite Hexcl by done.
    destruct (get_period_start row_dt (granularity q)); simpl; [|done].
    destruct (parse_metrics _); simpl; [|done].
    rewrite table_sum_empty_r. do 2 f_equal; lia.
Qed.

Lemma process_lines_cons q line lines :
  process_lines q (line :: lines)
  = '(t1, n1) ← process_row q (filter_set (user_filter q)) (filter_set (app_filter q))
                            (∅, 0%nat) line;
    '(t2, n2) ← process_lines q lines;
    Ok (table_sum t1 t2, (n1 + n2)%nat).
Proof.
  change (line :: lines) with ([line] ++ lines). rewrite process_lines_app.
  assert (Hone : process_lines q [line]
                 = process_row q (filter_set (user_filter q)) (filter_set (app_filter q))
                               (∅, 0%nat) line).
  { unfold process_lines. cbn [for_each]. by destruct (process_row q _ _ _ line). }
  by rewrite Hone.
Qed.

Lemma process_lines_window_split q a b c lines :
  dt_le a b → dt_le b c →
  process_lines (with_window q a c) lines
  = '(t1, n1) ← process_lines (with_window q a b) lines;
    '(t2, n2) ← process_lines (with_window q b c) lines;
    Ok (table_sum t1 t2, (n1 + n2)%nat).
Proof.
  intros Hab Hbc. induction lines as [|l lines IH]; [by simpl; rewrite ?table_sum_empty_l|].
  rewrite !process_lines_cons, IH.
  cbn [with_window user_filter app_filter].
  rewrite (process_row_window_split q a b c l Hab Hbc).
  pose proof (process_row_exn (with_window q a b) (filter_set (user_filter q))
                (filter_set (app_filter q)) (∅, 0%nat) l) as He1.
  pose proof (process_row_exn (with_window q b c) (filter_set (user_filter q))
                (filter_set (app_filter q)) (∅, 0%nat) l) as He2.
  pose proof (rows_exn (with_window q a b) (filter_set (user_filter q))
                (filter_set (app_filter q)) (∅, 0%nat) lines) as He3.
  pose proof (rows_exn (with_window q b c) (filter_set (user_filter q))
                (filter_set (app_filter q)) (∅, 0%nat) lines) as He4.
  unfold process_lines. cbn [with_window user_filter app_filter].
  change (query_exn (with_window q a b)) with (query_exn q) in *.
  change (query_exn (with_window q b c)) with (query_exn q) in *.
  destruct (process_row (with_window q a b) _ _ (∅, 0%nat) l) as [[a1 x1]|e1];
    destruct (process_row (with_window q b c) _ _ (∅, 0%nat) l) as [[b1 y1]|e2];
    destruct (for_each (process_row (with_window q a b) _ _) (∅, 0%nat) lines)
      as [[a2 x2]|e3];
    destruct (for_each (process_row (with_window q b c) _ _) (∅, 0%nat) lines)
      as [[b2 y2]|e4];
    simpl;
    repeat match goal with
      | H : ∀ e, Raise ?e' = Raise e → _ |- _ => specialize (H e' eq_refl); subst e'
      end; try done.
  f_equal. f_equal; [|lia].
  rewrite !table_sum_assoc. f_equal.
  rewrite <- !table_sum_assoc. f_equal. apply table_sum_comm.
Qed.

(** X16. Aggregating a chunk over the window [[a, b)] and over [[b, c)]
    and summing the two tables and row counts is aggregating it over
    [[a, c)]; if either half raises, so does the whole, with the same
    exception. *)
Theorem window_split_sums (fs : filesystem) (filepath : string) (q : query)
    (a b c : datetime) (chunk_start : Z) (chunk_size : option Z) :
  dt_le a b → dt_le b c →
  process_file_chunk fs filepath (with_window q a c) chunk_start chunk_size
  = ('(t1, n1) ← process_file_chunk fs filepath (with_window q a b) chunk_start chunk_size;
     '(t2, n2) ← process_file_chunk fs filepath (with_window q b c) chunk_start chunk_size;
     Ok (table_sum t1 t2, (n1 + n2)%nat)).
Proof.
  intros Hab Hbc. unfold process_file_chunk.
  destruct (fs !! filepath) as [lines|]; [|by simpl; rewrite ?table_sum_empty_l].
  by apply process_lines_window_split.
Qed.

End WindowSplit.

(** ** The command line and the output file name *)

Section CommandLineProperties.
Context {sh : Shell}.

Lemma split_commas_nonempty cur l : FixedRuntime.split_commas cur l ≠ [].
Proof.
  revert cur. induction l as [|a l IH]; intros cur; simpl; [done|].
  destruct (Ascii.eqb a ","); [done|apply IH].
Qed.

Lemma str_split_commas_nonempty s : str_split_commas s ≠ [].
Proof. apply split_commas_nonempty. Qed.

(** X17. A dimensions argument that passes the validation of [main] gives
    a list that is not empty and holds nothing but "user" and "app"; a
    filter argument never gives the empty list, which is the value the
    engine would take for "no filter". *)
Theorem validated_arguments (arg : string) (dimensions : list string) :
  parse_dimensions arg = Some dimensions →
  dimensions ≠ []
  ∧ Forall (λ dim, dim = "user" ∨ dim = "app") dimensions
  ∧ ("user" ∈ dimensions ∨ "app" ∈ dimensions)
  ∧ ∀ filter_arg, parse_filter filter_arg ≠ Some [].
Proof.
  unfold parse_dimensions. case_bool_decide as Hvalid; [|done]. intros [= <-].
  assert (Hne : str_strip <$> str_split_commas arg ≠ []).
  { intros Hnil%fmap_nil_inv. by apply (str_split_commas_nonempty arg). }
  assert (Hall : Forall (λ dim, dim = "user" ∨ dim = "app")
                        (str_strip <$> str_split_commas arg)).
  { eapply Forall_impl; [exact Hvalid|]. intros dim Hin. simpl in Hin.
    apply elem_of_cons in Hin as [->|Hin]; [by left|].
    apply elem_of_cons in Hin as [->|Hin]; [by right|]. by apply elem_of_nil in Hin. }
  split; [done|]. split; [done|]. split.
  - destruct (str_strip <$> str_split_commas arg) as [|d ds]; [done|].
    apply Forall_cons in Hall as [[-> | ->] _]; [left|right]; by apply elem_of_cons; left.
  - intros [s|]; simpl; [|done]. case_bool_decide; [done|].
    intros [= Hnil]. apply fmap_nil_inv in Hnil. by apply (str_split_commas_nonempty s).
Qed.

Lemma max_number_from name ext listing (start : Z) :
  start ≤ foldl (λ max_num filename,
                   match numbered name ext filename with
                   | Some num => max_num `max` num
                   | None => max_num
                   end) start listing
  ∧ ∀ filename num, filename ∈ listing → numbered name ext filename = Some num →
      num ≤ foldl (λ max_num filename,
                     match numbered name ext filename with
                     | Some num => max_num `max` num
                     | None => max_num
                     end) start listing.
Proof.
  revert start. induction listing as [|f listing IH]; intros start; simpl.
  - split; [lia|]. intros filename num Hin. by apply elem_of_nil in Hin.
  - destruct (numbered name ext f) as [k|] eqn:Hf.
    + destruct (IH (start `max` k)) as [Hge Hall]. split; [lia|].
      intros filename num Hin Hnum. apply elem_of_cons in Hin as [->|Hin].
      * rewrite Hf in Hnum. injection Hnum as <-. lia.
      * by eapply Hall.
    + destruct (IH start) as [Hge Hall]. split; [done|].
      intros filename num Hin Hnum. apply elem_of_cons in Hin as [->|Hin]; [congruence|].
      by eapply Hall.
Qed.

(** The number found is at least every number of a numbered name in the
    directory, and never negative. *)
Lemma max_number_bound name ext listing :
  0 ≤ max_number name ext listing
  ∧ ∀ filename num, filename ∈ listing → numbered name ext filename = Some num →
      num ≤ max_number name ext listing.
Proof. apply max_number_from. Qed.

Lemma chars_app (s1 s2 : string) :
  String.list_ascii_of_string (s1 +:+ s2)
  = String.list_ascii_of_string s1 ++ String.list_ascii_of_string s2.
Proof. induction s1 as [|a s1 IH]; simpl; [done|]. by rewrite IH. Qed.

(** The decimal digits of a number hold no separator. *)
Lemma pretty_N_go_no_separator (x : N) (s : string) :
  "/"%char ∉ String.list_ascii_of_string s →
  "/"%char ∉ String.list_ascii_of_string (pretty_N_go x s).
Proof.
  revert s. induction (N.lt_wf_0 x) as [x _ IH]; intros s Hs.
  assert (x = 0 ∨ 0 < x)%N as [->|Hpos] by lia.
  - by rewrite pretty_N_go_0.
  - rewrite pretty_N_go_step by done. apply IH; [by apply N.div_lt|].
    simpl. rewrite not_elem_of_cons. split; [|done].
    unfold pretty_N_char. by repeat case_match.
Qed.

Lemma pretty_Z_no_separator (z : Z) :
  0 ≤ z → "/"%char ∉ String.list_ascii_of_string (pretty z).
Proof.
  intros Hz. destruct z as [|p|p]; [by apply (bool_decide_unpack _)| |lia].
  unfold pretty, pretty_Z, pretty, pretty_positive, pretty, pretty_N.
  case_decide; [done|]. apply pretty_N_go_no_separator. by apply not_elem_of_nil.
Qed.

(** A numbered name built on a name without separator is an entry name. *)
Lemma numbered_entry_name (name ext : string) (num : Z) :
  "/"%char ∉ String.list_ascii_of_string name →
  "/"%char ∉ String.list_ascii_of_string ext →
  0 ≤ num →
  entry_name (name +:+ "_" +:+ pretty num +:+ ext).
Proof.
  intros Hname Hext Hnum.
  assert (Hunderscore : "_"%char ∈ String.list_ascii_of_string
                                     (name +:+ "_" +:+ pretty num +:+ ext)).
  { rewrite !chars_app. apply elem_of_app. right. apply elem_of_app. left.
    by apply list_elem_of_singleton. }
  split.
  - rewrite !chars_app, !not_elem_of_app. split; [done|]. split.
    + by apply (bool_decide_unpack _).
    + split; [by apply pretty_Z_no_separator|done].
  - repeat split; intros Heq; rewrite Heq in Hunderscore;
      apply list_elem_of_In in Hunderscore; simpl in Hunderscore; intuition discriminate.
Qed.

(** X18. For a requested name without directory part, in a directory that
    lists its entries, the output name chosen does not exist, provided
    [splitext] cuts the name in two and the pattern recognises the name
    the function builds, with the number it was built from (as
    [os.path.splitext], the pattern and [str] of an integer do).  Whatever
    the requested name, the name built for one that exists is not among the
    names listed, and a requested name that does not exist is returned
    unchanged. *)
Theorem output_name_is_fresh (dir : results_dir) (base_name : string) :
  (∀ name ext, let ext' := if bool_decide (ext = "") then ".csv" else ext in
     splitext base_name = (name, ext) →
     numbered name ext'
              (name +:+ "_" +:+ pretty (max_number name ext' (listdir dir) + 1) +:+ ext')
     = Some (max_number name ext' (listdir dir) + 1)) →
  (path_exists dir base_name = false → get_next_output_filename dir base_name = base_name)
  ∧ (path_exists dir base_name = true →
     get_next_output_filename dir base_name ∉ listdir dir)
  ∧ (lists_its_entries dir →
     "/"%char ∉ String.list_ascii_of_string base_name →
     (∀ name ext, splitext base_name = (name, ext) → base_name = name +:+ ext) →
     path_exists dir (get_next_output_filename dir base_name) = false).
Proof.
  intros Hpattern. unfold get_next_output_filename.
  destruct (splitext base_name) as [name ext] eqn:Hsplit.
  specialize (Hpattern name ext eq_refl). cbv zeta in Hpattern.
  set (ext' := if bool_decide (ext = "") then ".csv" else ext) in *.
  assert (Hnew : name +:+ "_" +:+ pretty (max_number name ext' (listdir dir) + 1) +:+ ext'
                 ∉ listdir dir).
  { intros Hin. destruct (max_number_bound name ext' (listdir dir)) as [_ Hmax].
    specialize (Hmax _ _ Hin Hpattern). lia. }
  destruct (path_exists dir base_name) eqn:Hexists; simpl.
  - split; [done|]. split; [done|]. intros Hdir Hplain Hcut.
    specialize (Hcut name ext eq_refl). subst base_name.
    rewrite chars_app, not_elem_of_app in Hplain. destruct Hplain as [Hname Hext].
    assert (Hext' : "/"%char ∉ String.list_ascii_of_string ext').
    { unfold ext'. case_bool_decide; [by apply (bool_decide_unpack _)|done]. }
    destruct (max_number_bound name ext' (listdir dir)) as [Hmax _].
    assert (Hentry : entry_name (name +:+ "_"
                                 +:+ pretty (max_number name ext' (listdir dir) + 1) +:+ ext')).
    { apply numbered_entry_name; [done|done|]. clear -Hmax. lia. }
    apply not_true_is_false. intros Hnext. apply Hnew. by apply Hdir.
  - split; [done|]. split; [done|]. by intros _ _ _.
Qed.

End CommandLineProperties.

(** ** The counts the engine reports *)

Section Counts.
Context {rt : Runtime}.

Lemma sum_list_with_ge_length {X} (f : X → nat) (ks : list X) :
  Forall (λ k, (1 ≤ f k)%nat) ks → (length ks ≤ sum_list_with f ks)%nat.
Proof. induction 1 as [|k ks Hk _ IH]; simpl; lia. Qed.

Lemma size_table_keys (t : table) : size t = length (table_keys t).
Proof. unfold table_keys. by rewrite length_fmap, length_map_to_list. Qed.

(** X19. The counts the engine reports bound one another: the table has
    at most as many keys as rows matched, the files processed are at most
    the days of the window, and when no file was processed the table is
    empty and no row matched. *)
Theorem output_counts_bounded (sched : scheduler) (fs : filesystem) (q : query)
    (num_threads : Z) (t : table) (n files : nat) :
  aggregate_data_parallel sched fs q num_threads = Ok (t, n, files) →
  (size t ≤ n)%nat
  ∧ Z.of_nat files ≤ dt_date (to_dt q) - dt_date (from_dt q) + 1
  ∧ (files = 0%nat → t = ∅ ∧ n = 0%nat).
Proof.
  intros Hrun. destruct (engine_scan _ _ _ _ _ _ _ Hrun) as [Hlines ->].
  split; [|split].
  - destruct (process_lines_rows _ _ _ _ Hlines) as (_ & -> & Hkeys).
    rewrite size_table_keys. apply sum_list_with_ge_length, Forall_forall.
    intros key Hkey%elem_of_table_keys%Hkeys. destruct Hkey as (line & Hin & Hkey).
    unfold multiplicity.
    assert (Hf : line ∈ filter (λ line, row_key q line = Some key) (scanned_lines fs q))
      by (by apply list_elem_of_filter).
    destruct (filter _ _); [by apply elem_of_nil in Hf|simpl; lia].
  - rewrite aggregate_data_parallel_scan in Hrun. case_bool_decide as Hpool; [done|].
    pose proof (length_filter (λ date_str, is_Some (fs !! log_path date_str))
                  (get_date_range (from_dt q) (to_dt q))) as Hfilter.
    unfold existing_files. rewrite get_date_range_length in Hfilter, Hpool. lia.
  - intros Hnone%nil_length_inv. unfold scanned_lines in Hlines.
    rewrite Hnone in Hlines. by injection Hlines as <- <-.
Qed.

End Counts.

(** * Further worked instances *)

Example next_output_names :
  get_next_output_filename (flat_dir ex_listing) "result.csv" = "result_8.csv"
  ∧ get_next_output_filename (flat_dir ex_listing) "summary.csv" = "summary.csv"
  ∧ get_next_output_filename (flat_dir ["result"]) "result" = "result_1.csv"
  ∧ get_next_output_filename (flat_dir ["result.csv"; "result_x.csv"]) "result.csv"
    = "result_1.csv".
Proof. repeat split; reflexivity. Qed.

(** A requested name with a directory part is looked up in that directory
    but numbered against the listing of the results directory: the name
    chosen can be the name of a file that exists. *)
Example nested_output_name :
  get_next_output_filename ex_nested_dir "sub/x.csv" = "sub/x_1.csv"
  ∧ path_exists ex_nested_dir "sub/x_1.csv" = true
  ∧ lists_its_entries ex_nested_dir.
Proof.
  split; [reflexivity|]. split; [reflexivity|].
  intros path (Hplain & _) Hexists. apply bool_decide_eq_true in Hexists.
  repeat (apply elem_of_cons in Hexists as [->|Hexists]); [by apply list_elem_of_singleton|..].
  - exfalso. apply Hplain. by apply (bool_decide_unpack _).
  - exfalso. apply Hplain. by apply (bool_decide_unpack _).
  - by apply elem_of_nil in Hexists.
Qed.

Example splitext_cases :
  splitext <$> ["result.csv"; "result"; ".hidden"; "a.b/c"; "sub/x.csv"; "sub/.x"; "a.tar.gz"]
  = [("result", ".csv"); ("result", ""); (".hidden", ""); ("a.b/c", ""); ("sub/x", ".csv");
     ("sub/.x", ""); ("a.tar", ".gz")].
Proof. reflexivity. Qed.

Example command_line_arguments :
  parse_dimensions "user, app" = Some ["user"; "app"]
  ∧ parse_dimensions "app,user,user" = Some ["app"; "user"; "user"]
  ∧ parse_dimensions "" = None
  ∧ parse_dimensions "user," = None
  ∧ parse_dimensions "device" = None
  ∧ parse_filter (Some "u1, u2") = Some ["u1"; "u2"]
  ∧ parse_filter (Some "") = None
  ∧ parse_filter (Some " ") = Some [""].
Proof. repeat split; reflexivity. Qed.

Example sequential_run : aggregate_data ex_fs ex_query = Ok ex_table.
Proof. reflexivity. Qed.

Lemma ex_period : get_period_start (ts "2025-01-01 00:47:00") "30m"
                  = Ok (ts "2025-01-01 00:30:00").
Proof. reflexivity. Defined.

Lemma period_start_rounds_down_witness :
  get_period_start (ts "2025-01-01 00:47:00") "30m" = Ok (ts "2025-01-01 00:30:00")
  ∧ dt_nonneg (ts "2025-01-01 00:47:00")
  ∧ dt_le (ts "2025-01-01 00:30:00") (ts "2025-01-01 00:47:00").
Proof.
  assert (H : dt_nonneg (ts "2025-01-01 00:47:00")) by (repeat split; by vm_compute).
  split; [exact ex_period|]. split; [exact H|].
  exact (proj1 (period_start_rounds_down _ _ _ ex_period H)).
Defined.

Lemma period_start_idempotent_witness :
  get_period_start (ts "2025-01-01 00:47:00") "30m" = Ok (ts "2025-01-01 00:30:00")
  ∧ get_period_start (ts "2025-01-01 00:30:00") "30m" = Ok (ts "2025-01-01 00:30:00")
  ∧ get_period_start (ts "2025-01-01 00:30:00") "1day"
    = get_period_start (ts "2025-01-01 00:47:00") "1day".
Proof. split; [exact ex_period|]. exact (period_start_idempotent _ _ _ ex_period). Defined.

Lemma ex_later_period : get_period_start (ts "2025-01-01 01:10:00") "30m"
                        = Ok (ts "2025-01-01 01:00:00").
Proof. reflexivity. Defined.

Lemma ex_earlier : dt_le (ts "2025-01-01 00:47:00") (ts "2025-01-01 01:10:00").
Proof. right. apply dt_ltb_lt. reflexivity. Defined.

Lemma period_start_monotone_witness :
  dt_le (ts "2025-01-01 00:47:00") (ts "2025-01-01 01:10:00")
  ∧ get_period_start (ts "2025-01-01 00:47:00") "30m" = Ok (ts "2025-01-01 00:30:00")
  ∧ get_period_start (ts "2025-01-01 01:10:00") "30m" = Ok (ts "2025-01-01 01:00:00")
  ∧ dt_le (ts "2025-01-01 00:30:00") (ts "2025-01-01 01:00:00").
Proof.
  split; [exact ex_earlier|]. split; [exact ex_period|]. split; [exact ex_later_period|].
  exact (period_start_monotone _ _ _ _ _ ex_earlier ex_period ex_later_period).
Defined.

Lemma table_holds_sums_witness :
  aggregate_data_parallel lifo ex_fs ex_query 4 = Ok (ex_table, 2%nat, 2%nat)
  ∧ ∀ key v, ex_table !! key = Some v →
      v = key_total ex_query (scanned_lines ex_fs ex_query) key ∧ length v = 9%nat.
Proof.
  split; [exact ex_run|].
  exact (proj2 (table_holds_sums lifo ex_fs ex_query 4 ex_table 2 2 ex_run)).
Defined.

Lemma empty_table_iff_no_rows_witness :
  aggregate_data_parallel lifo ex_fs ex_query 4 = Ok (ex_table, 2%nat, 2%nat)
  ∧ (ex_table = ∅ ↔ 2%nat = 0%nat).
Proof.
  split; [exact ex_run|].
  exact (empty_table_iff_no_rows lifo ex_fs ex_query 4 ex_table 2 2 ex_run).
Defined.

Lemma output_is_rectangular_witness :
  aggregate_data_parallel lifo ex_fs ex_query 4 = Ok (ex_table, 2%nat, 2%nat)
  ∧ length (write_results ex_table (dimensions ex_query)) = S (size ex_table)
  ∧ Forall (λ row, length row = length (header (dimensions ex_query)))
           (write_results ex_table (dimensions ex_query)).
Proof.
  split; [exact ex_run|].
  exact (output_is_rectangular lifo ex_fs ex_query 4 ex_table 2 2 ex_run).
Defined.

Lemma dimension_order_irrelevant_witness :
  ("user" ∈ dimensions ex_query_both ↔ "user" ∈ ["app"; "user"; "app"])
  ∧ ("app" ∈ dimensions ex_query_both ↔ "app" ∈ ["app"; "user"; "app"])
  ∧ aggregate_data_parallel lifo ex_fs (with_dimensions ex_query_both ["app"; "user"; "app"]) 4
    = aggregate_data_parallel lifo ex_fs ex_query_both 4.
Proof.
  assert (H1 : "user" ∈ dimensions ex_query_both ↔ "user" ∈ ["app"; "user"; "app"])
    by (split; intros _; apply list_elem_of_In; vm_compute; auto).
  assert (H2 : "app" ∈ dimensions ex_query_both ↔ "app" ∈ ["app"; "user"; "app"])
    by (split; intros _; apply list_elem_of_In; vm_compute; auto).
  split; [exact H1|]. split; [exact H2|].
  exact (proj1 (dimension_order_irrelevant lifo ex_fs ex_query_both 4 _ H1 H2)).
Defined.

Lemma engine_ignores_scheduling_witness :
  1 ≤ 4 ∧ 1 ≤ 1
  ∧ aggregate_data_parallel lifo ex_fs ex_query 4 = aggregate_data_parallel fifo ex_fs ex_query 1.
Proof.
  assert (H1 : 1 ≤ 4) by lia. assert (H2 : 1 ≤ 1) by lia.
  split; [exact H1|]. split; [exact H2|].
  exact (engine_ignores_scheduling lifo fifo ex_fs ex_query 4 1 H1 H2).
Defined.

Lemma engine_rejects_empty_pool_witness :
  (0 ≤ 0 ∨ dt_date (to_dt ex_query) < dt_date (from_dt ex_query))
  ∧ aggregate_data_parallel lifo ex_fs ex_query 0 = Raise ValueError_max_workers.
Proof.
  assert (H : 0 ≤ 0 ∨ dt_date (to_dt ex_query) < dt_date (from_dt ex_query)) by (left; lia).
  split; [exact H|].
  exact (proj1 (engine_rejects_empty_pool lifo ex_fs ex_query 0 H)).
Defined.

(** With a quoted field that runs over two lines, chunks are no longer
    ranges of records: the chunk of the first line reads the record of the
    first two lines, the chunk of the second line starts inside that
    record, and the two together match one row where the chunk of both
    lines matches two. *)
Example multiline_record_chunks :
  length ex_multiline_log = 3%nat
  ∧ length (csv_records ex_multiline_log) = 2%nat
  ∧ ¬ one_record_per_line ex_multiline_log
  ∧ process_file_chunk ex_multiline_fs "csv_logs/2025-01-01.log.csv" ex_query 0 (Some 1)
    = Ok ({[ ["2025-01-01 00:00:00"; "u1"] := [1; 1; 1; 1; 1; 1; 1; 1; 1] ]}, 1%nat)
  ∧ process_file_chunk ex_multiline_fs "csv_logs/2025-01-01.log.csv" ex_query 1 (Some 1)
    = Ok (∅, 0%nat)
  ∧ process_file_chunk ex_multiline_fs "csv_logs/2025-01-01.log.csv" ex_query 0 (Some 2)
    = Ok ({[ ["2025-01-01 00:00:00"; "u1"] := [3; 3; 3; 3; 3; 3; 3; 3; 3] ]}, 2%nat).
Proof.
  split; [reflexivity|]. split; [reflexivity|]. split.
  { intros [Hfirst _]%Forall_cons. by vm_compute in Hfirst. }
  repeat split; reflexivity.
Qed.

Example csv_rows :
  csv_fields <$> csv_records ex_multiline_log
  = [ ["2025-01-01 00:47:00"; "u1"; "a" +:+ newline +:+ "1";
       "1"; "1"; "1"; "1"; "1"; "1"; "1"; "1"; "1"];
      ["2025-01-01 09:10:00"; "u1"; "a1"; "2"; "2"; "2"; "2"; "2"; "2"; "2"; "2"; "2"] ]
  ∧ csv_fields ("a," +:+ double_quote +:+ "b,c" +:+ double_quote +:+ ",d") = ["a"; "b,c"; "d"]
  ∧ csv_fields "a,,b," = ["a"; ""; "b"; ""]
  ∧ csv_fields "" = [].
Proof. repeat split; reflexivity. Qed.

Lemma ex_big_log_file : ex_big_fs !! "csv_logs/2025-01-01.log.csv" = Some ex_big_log.
Proof. apply lookup_singleton_eq. Defined.

Lemma ex_big_log_records : one_record_per_line ex_big_log.
Proof. apply Forall_replicate. reflexivity. Defined.

Lemma ex_big_log_length : PARALLEL_THRESHOLD ≤ Z.of_nat (length ex_big_log).
Proof. unfold ex_big_log. rewrite length_replicate, Z2Nat.id by lia. by vm_compute. Defined.

Lemma parallel_file_equals_single_worker_witness :
  ex_big_fs !! "csv_logs/2025-01-01.log.csv" = Some ex_big_log
  ∧ one_record_per_line ex_big_log
  ∧ 1 ≤ 4
  ∧ PARALLEL_THRESHOLD ≤ Z.of_nat (length ex_big_log)
  ∧ process_file_parallel lifo ex_big_fs "csv_logs/2025-01-01.log.csv" ex_query 4
    = process_file_chunk ex_big_fs "csv_logs/2025-01-01.log.csv" ex_query 0 None.
Proof.
  assert (H : 1 ≤ 4) by lia.
  split; [exact ex_big_log_file|]. split; [exact ex_big_log_records|]. split; [exact H|].
  split; [exact ex_big_log_length|].
  exact (proj1 (parallel_file_equals_single_worker lifo ex_big_fs _ ex_query 4 ex_big_log
                  ex_big_log_file ex_big_log_records H)).
Defined.

Lemma ex_day1_lines :
  ex_fs !! "csv_logs/2025-01-01.log.csv"
  = Some (default [] (ex_fs !! "csv_logs/2025-01-01.log.csv")).
Proof. reflexivity. Defined.

Lemma parallel_file_edge_cases_witness :
  ex_fs !! "csv_logs/2025-01-01.log.csv"
    = Some (default [] (ex_fs !! "csv_logs/2025-01-01.log.csv"))
  ∧ ∀ missing, ex_fs !! missing = None →
      process_file_parallel lifo ex_fs missing ex_query (-3) = Raise FileNotFoundError
      ∧ process_file_chunk ex_fs missing ex_query 0 None = Ok (∅, 0%nat).
Proof.
  split; [exact ex_day1_lines|].
  exact (proj2 (proj2 (proj2
           (parallel_file_edge_cases lifo ex_fs _ ex_query (-3) _ ex_day1_lines)))).
Defined.

Lemma ex_day1_records :
  one_record_per_line (default [] (ex_fs !! "csv_logs/2025-01-01.log.csv")).
Proof. unfold one_record_per_line. apply (bool_decide_unpack _). by vm_compute. Defined.

Lemma adjacent_chunks_compose_witness :
  ex_fs !! "csv_logs/2025-01-01.log.csv"
    = Some (default [] (ex_fs !! "csv_logs/2025-01-01.log.csv"))
  ∧ one_record_per_line (default [] (ex_fs !! "csv_logs/2025-01-01.log.csv"))
  ∧ 0 ≤ 0 ∧ 1 ≤ 1 ∧ 1 ≤ 2
  ∧ merge_completed
      [process_file_chunk ex_fs "csv_logs/2025-01-01.log.csv" ex_query 0 (Some 1);
       process_file_chunk ex_fs "csv_logs/2025-01-01.log.csv" ex_query (0 + 1) (Some 2)]
    = process_file_chunk ex_fs "csv_logs/2025-01-01.log.csv" ex_query 0 (Some (1 + 2)).
Proof.
  assert (H0 : 0 ≤ 0) by lia. assert (H1 : 1 ≤ 1) by lia. assert (H2 : 1 ≤ 2) by lia.
  split; [exact ex_day1_lines|]. split; [exact ex_day1_records|].
  split; [exact H0|]. split; [exact H1|]. split; [exact H2|].
  exact (proj1 (adjacent_chunks_compose ex_fs "csv_logs/2025-01-01.log.csv" ex_query _
                  0 1 2 ex_day1_lines ex_day1_records H0 H1 H2)).
Defined.

Lemma ex_well_formed : metrics_well_formed (scanned_lines ex_fs ex_query).
Proof.
  unfold metrics_well_formed, malformed_metric.
  apply (bool_decide_unpack _). by vm_compute.
Defined.

Lemma ex_range_nonempty : get_date_range (from_dt ex_query) (to_dt ex_query) ≠ [].
Proof. by vm_compute. Defined.

Lemma sequential_agrees_with_engine_witness :
  metrics_well_formed (scanned_lines ex_fs ex_query)
  ∧ 1 ≤ 4 ∧ get_date_range (from_dt ex_query) (to_dt ex_query) ≠ []
  ∧ aggregate_data ex_fs ex_query
    = ('(t, _, _) ← aggregate_data_parallel lifo ex_fs ex_query 4; Ok t).
Proof.
  assert (H : 1 ≤ 4) by lia.
  split; [exact ex_well_formed|]. split; [exact H|]. split; [exact ex_range_nonempty|].
  exact (sequential_agrees_with_engine lifo ex_fs ex_query 4 ex_well_formed H
           ex_range_nonempty).
Defined.

Lemma ex_sequential_run : aggregate_data ex_fs ex_query = Ok ex_table.
Proof. reflexivity. Defined.

Lemma sequential_table_is_engine_table_witness :
  aggregate_data ex_fs ex_query = Ok ex_table
  ∧ 1 ≤ 4 ∧ get_date_range (from_dt ex_query) (to_dt ex_query) ≠ []
  ∧ ∃ n files, aggregate_data_parallel lifo ex_fs ex_query 4 = Ok (ex_table, n, files).
Proof.
  assert (H : 1 ≤ 4) by lia.
  split; [exact ex_sequential_run|]. split; [exact H|]. split; [exact ex_range_nonempty|].
  exact (sequential_table_is_engine_table lifo ex_fs ex_query 4 ex_table ex_sequential_run H
           ex_range_nonempty).
Defined.

Lemma ex_read : read_log_file ex_fs "csv_logs/2025-01-01.log.csv" (from_dt ex_query)
                              (to_dt ex_query) (user_filter ex_query) (app_filter ex_query)
                = Ok ex_yields.
Proof. reflexivity. Defined.

Lemma reader_yields_accepted_lines_witness :
  ex_fs !! "csv_logs/2025-01-01.log.csv"
    = Some (default [] (ex_fs !! "csv_logs/2025-01-01.log.csv"))
  ∧ read_log_file ex_fs "csv_logs/2025-01-01.log.csv" (from_dt ex_query) (to_dt ex_query)
                  (user_filter ex_query) (app_filter ex_query) = Ok ex_yields
  ∧ ex_yields
    = omap (yielded_row ex_query)
           (csv_records (default [] (ex_fs !! "csv_logs/2025-01-01.log.csv"))).
Proof.
  split; [exact ex_day1_lines|]. split; [exact ex_read|].
  exact (proj1 (reader_yields_accepted_lines ex_fs _ ex_query _ ex_yields
                  ex_day1_lines ex_read)).
Defined.

Lemma ex_window_first : dt_le (ts "2025-01-01 00:00:00") (ts "2025-01-01 12:00:00").
Proof. right. apply dt_ltb_lt. reflexivity. Defined.

Lemma ex_window_second : dt_le (ts "2025-01-01 12:00:00") (ts "2025-01-03 00:00:00").
Proof. right. apply dt_ltb_lt. reflexivity. Defined.

Lemma window_split_sums_witness :
  dt_le (ts "2025-01-01 00:00:00") (ts "2025-01-01 12:00:00")
  ∧ dt_le (ts "2025-01-01 12:00:00") (ts "2025-01-03 00:00:00")
  ∧ process_file_chunk ex_fs "csv_logs/2025-01-01.log.csv"
      (with_window ex_query (ts "2025-01-01 00:00:00") (ts "2025-01-03 00:00:00")) 0 None
    = ('(t1, n1) ← process_file_chunk ex_fs "csv_logs/2025-01-01.log.csv"
                     (with_window ex_query (ts "2025-01-01 00:00:00")
                                  (ts "2025-01-01 12:00:00")) 0 None;
       '(t2, n2) ← process_file_chunk ex_fs "csv_logs/2025-01-01.log.csv"
                     (with_window ex_query (ts "2025-01-01 12:00:00")
                                  (ts "2025-01-03 00:00:00")) 0 None;
       Ok (table_sum t1 t2, (n1 + n2)%nat)).
Proof.
  split; [exact ex_window_first|]. split; [exact ex_window_second|].
  exact (window_split_sums ex_fs _ ex_query _ _ _ 0 None ex_window_first ex_window_second).
Defined.

Lemma ex_dimensions : parse_dimensions "user, app" = Some ["user"; "app"].
Proof. reflexivity. Defined.

Lemma validated_arguments_witness :
  parse_dimensions "user, app" = Some ["user"; "app"]
  ∧ ["user"; "app"] ≠ []
  ∧ Forall (λ dim, dim = "user" ∨ dim = "app") ["user"; "app"].
Proof.
  split; [exact ex_dimensions|].
  pose proof (validated_arguments "user, app" ["user"; "app"] ex_dimensions) as H.
  split; [exact (proj1 H)|exact (proj1 (proj2 H))].
Defined.

Lemma ex_pattern :
  ∀ name ext, let ext' := if bool_decide (ext = "") then ".csv" else ext in
    splitext "result.csv" = (name, ext) →
    numbered name ext'
             (name +:+ "_"
              +:+ pretty (max_number name ext' (listdir (flat_dir ex_listing)) + 1) +:+ ext')
    = Some (max_number name ext' (listdir (flat_dir ex_listing)) + 1).
Proof.
  intros name ext ext' Hsplit. subst ext'.
  change (splitext "result.csv") with ("result", ".csv") in Hsplit.
  injection Hsplit as <- <-. reflexivity.
Defined.

Lemma ex_flat_dir : lists_its_entries (flat_dir ex_listing).
Proof. intros path _ Hexists. by apply bool_decide_eq_true in Hexists. Defined.

Lemma ex_plain_name : "/"%char ∉ String.list_ascii_of_string "result.csv".
Proof. apply (bool_decide_unpack _). by vm_compute. Defined.

Lemma ex_cut :
  ∀ name ext, splitext "result.csv" = (name, ext) → "result.csv" = name +:+ ext.
Proof.
  intros name ext Hsplit.
  change (splitext "result.csv") with ("result", ".csv") in Hsplit.
  injection Hsplit as <- <-. reflexivity.
Defined.

Lemma output_name_is_fresh_witness :
  (∀ name ext, let ext' := if bool_decide (ext = "") then ".csv" else ext in
     splitext "result.csv" = (name, ext) →
     numbered name ext'
              (name +:+ "_"
               +:+ pretty (max_number name ext' (listdir (flat_dir ex_listing)) + 1) +:+ ext')
     = Some (max_number name ext' (listdir (flat_dir ex_listing)) + 1))
  ∧ lists_its_entries (flat_dir ex_listing)
  ∧ ("/"%char ∉ String.list_ascii_of_string "result.csv")
  ∧ (∀ name ext, splitext "result.csv" = (name, ext) → "result.csv" = name +:+ ext)
  ∧ path_exists (flat_dir ex_listing)
                (get_next_output_filename (flat_dir ex_listing) "result.csv") = false.
Proof.
  split; [exact ex_pattern|]. split; [exact ex_flat_dir|]. split; [exact ex_plain_name|].
  split; [exact ex_cut|].
  exact (proj2 (proj2 (output_name_is_fresh (flat_dir ex_listing) "result.csv" ex_pattern))
           ex_flat_dir ex_plain_name ex_cut).
Defined.

Lemma output_counts_bounded_witness :
  aggregate_data_parallel lifo ex_fs ex_query 4 = Ok (ex_table, 2%nat, 2%nat)
  ∧ (size ex_table ≤ 2)%nat
  ∧ Z.of_nat 2 ≤ dt_date (to_dt ex_query) - dt_date (from_dt ex_query) + 1.
Proof.
  split; [exact ex_run|].
  pose proof (output_counts_bounded lifo ex_fs ex_query 4 ex_table 2 2 ex_run) as H.
  split; [exact (proj1 H)|exact (proj1 (proj2 H))].
Defined.
